(** * yt-scrapper: the resolver, the fetch pipeline and the KPI aggregator

    A shallow embedding of the helper functions of [app.py] (everything
    above the "UI" banner) and the properties its specification states
    about them.

    Conventions of the embedding.
    - A Python [str] is a [string]; a character is a code point below 256.
      On that range the regex class [\d] is exactly ['0'..'9'], and the
      characters removed by [str.strip()] are the ones of [is_space].
      Texts with characters above 255 (decimal digits of other scripts
      among them) are outside the embedding.
    - A Python [int] is a [Z] (unbounded); the conversion [int(text)] is
      [Text.int_of_str], which raises beyond CPython's default limit of
      4300 digits.
    - A raised exception is the [Raise] case of [result].
    - An HTTP request is an event: the functions that call [requests.get]
      run in the monad [Net.M], which threads the log of the requests made
      and asks an oracle (the remote API) for each response.  The oracle
      answers every request, with a JSON body of the shape the code reads
      (an object whose "items" carry the fields read): a request that
      fails in transport, a body that is not JSON and an item without a
      field read with [[...]] are outside the embedding. *)

From Stdlib Require Import ZArith List Bool Ascii String Lia.
From Stdlib Require Import Permutation Sorted.
Import ListNotations.

Set Implicit Arguments.

(* ------------------------------------------------------------------ *)
(** ** Exceptions *)

Inductive exn : Type :=
| AttributeError                  (* [None.group(...)] *)
| ValueError (msg : string)       (* [raise ValueError(...)], [int("x")] *)
| HTTPError (status : Z)          (* [r.raise_for_status()] *)
| ParserError.                    (* [dateutil.parser.parse] *)

Inductive result (A : Type) : Type :=
| Ok (a : A)
| Raise (e : exn).

Arguments Ok {A} a.
Arguments Raise {A} e.

(* ------------------------------------------------------------------ *)
(** ** Characters and strings *)

Module Text.

Open Scope string_scope.

Definition code (c : ascii) : N := N_of_ascii c.

Definition between (lo hi : N) (c : ascii) : bool :=
  (N.leb lo (code c) && N.leb (code c) hi)%bool.

(** [\d] *)
Definition is_digit (c : ascii) : bool := between 48 57 c.

Definition is_upper (c : ascii) : bool := between 65 90 c.
Definition is_lower (c : ascii) : bool := between 97 122 c.

(** [[A-Za-z0-9]] *)
Definition is_alnum (c : ascii) : bool :=
  is_upper c || is_lower c || is_digit c.

(** [[0-9A-Za-z_-]] *)
Definition is_id_char (c : ascii) : bool :=
  is_alnum c || Ascii.eqb c "_" || Ascii.eqb c "-".

(** [[A-Za-z0-9_.-]] *)
Definition is_name_char (c : ascii) : bool :=
  is_id_char c || Ascii.eqb c ".".

(** The characters [str.strip()] removes: tab, LF, VT, FF, CR, the four
    separators FS GS RS US, space, NEL and the no-break space. *)
Definition is_space (c : ascii) : bool :=
  between 9 13 c || between 28 32 c
  || N.eqb (code c) 133 || N.eqb (code c) 160.

Fixpoint all (p : ascii -> bool) (s : string) : bool :=
  match s with
  | "" => true
  | String c s' => p c && all p s'
  end.

(** The longest prefix of [s] whose characters satisfy [p], and the rest. *)
Fixpoint span (p : ascii -> bool) (s : string) : string * string :=
  match s with
  | "" => ("", "")
  | String c s' =>
      if p c then let (a, b) := span p s' in (String c a, b)
      else ("", s)
  end.

Fixpoint drop_while (p : ascii -> bool) (s : string) : string :=
  match s with
  | "" => ""
  | String c s' => if p c then drop_while p s' else s
  end.

Fixpoint rev_acc (s acc : string) : string :=
  match s with
  | "" => acc
  | String c s' => rev_acc s' (String c acc)
  end.

Definition rev (s : string) : string := rev_acc s "".

(** [s.lstrip()], [s.rstrip()], [s.strip()] *)
Definition lstrip (s : string) : string := drop_while is_space s.
Definition rstrip (s : string) : string := rev (drop_while is_space (rev s)).
Definition strip (s : string) : string := rstrip (lstrip s).

(** [s.rstrip("/")] *)
Definition rstrip_char (c : ascii) (s : string) : string :=
  rev (drop_while (Ascii.eqb c) (rev s)).

(** [s.startswith(p)]: the rest of [s] after [p], when [s] starts with [p] *)
Fixpoint strip_prefix (p s : string) : option string :=
  match p, s with
  | "", _ => Some s
  | String a p', String b s' =>
      if Ascii.eqb a b then strip_prefix p' s' else None
  | String _ _, "" => None
  end.

Definition startswith (s p : string) : bool :=
  match strip_prefix p s with Some _ => true | None => false end.

(** [int(ds)] for a string of decimal digits *)
Definition digit_value (c : ascii) : Z := Z.of_N (code c) - 48.

Fixpoint int_acc (acc : Z) (ds : string) : Z :=
  match ds with
  | "" => acc
  | String c ds' => int_acc (10 * acc + digit_value c) ds'
  end.

Definition int_of_digits (ds : string) : Z := int_acc 0 ds.

(** [sys.int_max_str_digits], at CPython's default. *)
Definition int_max_str_digits : nat := 4300.

(** [int(ds)] for a string of decimal digits: its value, unless the string
    has more digits than the limit, leading zeros counted. *)
Definition int_of_str (ds : string) : result Z :=
  if (String.length ds <=? int_max_str_digits)%nat
  then Ok (int_of_digits ds)
  else Raise (ValueError
                "Exceeds the limit (4300 digits) for integer string conversion").

End Text.

(* ------------------------------------------------------------------ *)
(** ** The duration decoder *)

Module Duration.

Import Text.
Open Scope string_scope.
Open Scope Z_scope.

(** One optional group [(?:(\d+)X)?] tried at the head of [s]: the digits
    captured, when the group matches, and what is left of [s].  [\d+] is
    greedy and the letter [X] is not a digit, so the only run of digits that
    can be followed by [X] is the longest one; when it is not, the group
    matches empty and captures nothing. *)
Definition opt_group (X : ascii) (s : string) : option string * string :=
  match span is_digit s with
  | (String d ds, String c rest) =>
      if Ascii.eqb c X then (Some (String d ds), rest) else (None, s)
  | _ => (None, s)
  end.

(** The match object of
    [re.match(r"PT(?:(\d+)H)?(?:(\d+)M)?(?:(\d+)S)?", iso)]. *)
Record match_obj : Type := MatchObj {
  group1 : option string;
  group2 : option string;
  group3 : option string;
  unmatched : string    (* the input after [m.end()] *)
}.

Definition re_match (iso : string) : option match_obj :=
  match strip_prefix "PT" iso with
  | None => None
  | Some s0 =>
      let (g1, s1) := opt_group "H" s0 in
      let (g2, s2) := opt_group "M" s1 in
      let (g3, s3) := opt_group "S" s2 in
      Some (MatchObj g1 g2 g3 s3)
  end.

(** [int(g or 0)] *)
Definition int_or_0 (g : option string) : result Z :=
  match g with
  | Some ds => int_of_str ds
  | None => Ok 0
  end.

Definition iso_to_seconds (iso : string) : result Z :=
  match re_match iso with
  | None => Raise AttributeError
  | Some m =>
      match int_or_0 (group1 m) with
      | Raise e => Raise e
      | Ok h =>
      match int_or_0 (group2 m) with
      | Raise e => Raise e
      | Ok m_ =>
      match int_or_0 (group3 m) with
      | Raise e => Raise e
      | Ok s => Ok (h * 3600 + m_ * 60 + s)
      end end end
  end.

End Duration.

(* ------------------------------------------------------------------ *)
(** ** The remote API and the monad of the functions that call it *)

Module Net.

Open Scope string_scope.

(** A video resource as the [videos] endpoint returns it, reduced to the
    fields [fetch_video_details] reads.  A field read with [.get] is an
    [option]; [id] and [contentDetails.duration] are read with [[...]]. *)
Record thumbnails : Type := Thumbnails {
  maxres : option (option string);    (* [None]: variant absent or empty; *)
  standard : option (option string);  (* [Some u]: present, [u] its "url" *)
  high : option (option string);
  medium : option (option string);
  default : option (option string)
}.

Record video_item : Type := VideoItem {
  item_id : string;
  item_title : option string;
  item_publishedAt : option string;
  item_duration : string;
  item_likeCount : option string;
  item_commentCount : option string;
  item_thumbnails : thumbnails
}.

(** One [requests.get]: the endpoint with the parameters that vary. *)
Inductive request : Type :=
| ChannelsForHandle (key handle : string)
| ChannelsForUsername (key username : string)
| SearchChannel (key q : string)
| ChannelsContentDetails (key channel_id : string)
| PlaylistItems (key playlist_id : string) (maxResults : Z)
                (pageToken : option string)
| Videos (key ids : string).

(** The remote side.  The three lookups of the resolver read the JSON body
    whatever the status, so their answer is the list under "items" (empty
    when the key is missing), each item reduced to the one field read.  The
    other three check the status first. *)
Record remote : Type := Remote {
  channels_forHandle : string -> string -> list string;
  channels_forUsername : string -> string -> list string;
  search_channel : string -> string -> list string;
  channels_contentDetails : string -> string -> Z * list string;
  playlistItems :
    string -> string -> Z -> option string ->
    Z * (list string * option string);
  videos : string -> string -> Z * list video_item
}.

Definition log : Type := list request.

(** A computation: from the log so far to its outcome and the log after it;
    [None] when a loop ran out of fuel. *)
Definition M (A : Type) : Type := log -> option (result A * log).

Definition ret {A} (a : A) : M A := fun l => Some (Ok a, l).

Definition raise {A} (e : exn) : M A := fun l => Some (Raise e, l).

Definition out_of_fuel {A} : M A := fun _ => None.

Definition bind {A B} (m : M A) (f : A -> M B) : M B :=
  fun l =>
    match m l with
    | None => None
    | Some (Ok a, l') => f a l'
    | Some (Raise e, l') => Some (Raise e, l')
    end.

Definition lift {A} (r : result A) : M A := fun l => Some (r, l).

(** Performing a request appends it to the log. *)
Definition get {A} (rq : request) (answer : A) : M A :=
  fun l => Some (Ok answer, (l ++ [rq])%list).

(** [r.raise_for_status()]: 4xx and 5xx raise. *)
Definition raise_for_status (status : Z) : M unit :=
  if ((400 <=? status) && (status <? 600))%Z then raise (HTTPError status)
  else ret tt.

Definition run {A} (m : M A) : option (result A * log) := m [].

End Net.

Declare Scope net_scope.
Delimit Scope net_scope with net.
Notation "x <- m ;; k" := (Net.bind m (fun x => k))
  (at level 61, m at next level, right associativity) : net_scope.
Notation "m ;;; k" := (Net.bind m (fun _ => k))
  (at level 61, right associativity) : net_scope.

(* ------------------------------------------------------------------ *)
(** ** Channel resolver (handle/URL -> channel ID) *)

Module Resolver.

Import Text Net.
Open Scope string_scope.
Open Scope net_scope.

(** [re.search(p, s)]: the match of [p] at the leftmost position that has
    one; [at_head] is the match of [p] at the head of its argument. *)
Fixpoint re_search {A} (at_head : string -> option A) (s : string)
  : option A :=
  match at_head s with
  | Some a => Some a
  | None =>
      match s with
      | "" => None
      | String _ s' => re_search at_head s'
      end
  end.

(** The first [n] characters of [s], when [s] has that many. *)
Fixpoint take (n : nat) (s : string) : option string :=
  match n, s with
  | O, _ => Some ""
  | S n', String c s' =>
      match take n' s' with
      | Some t => Some (String c t)
      | None => None
      end
  | S _, "" => None
  end.

(** [UC[0-9A-Za-z_-]{22}] at the head of [s]: the text matched and the
    rest. *)
Definition channel_id_at (s : string) : option (string * string) :=
  match strip_prefix "UC" s with
  | None => None
  | Some r =>
      match take 22 r with
      | Some t =>
          if all is_id_char t
          then Some ("UC" ++ t, substring 22 (String.length r - 22) r)
          else None
      | None => None
      end
  end.

(** [re.fullmatch(r"UC[0-9A-Za-z_-]{22}", s)] *)
Definition is_channel_id (s : string) : bool :=
  match channel_id_at s with
  | Some (_, "") => true
  | _ => false
  end.

(** [(cls+)] right after the literal [lit], at the head of [s]: group 1. *)
Definition name_after (lit : string) (cls : ascii -> bool) (s : string)
  : option string :=
  match strip_prefix lit s with
  | None => None
  | Some r =>
      match span cls r with
      | (String c t, _) => Some (String c t)
      | _ => None
      end
  end.

(** [/channel/(UC[0-9A-Za-z_-]{22})] at the head of [s]: group 1. *)
Definition channel_url_at (s : string) : option string :=
  match strip_prefix "/channel/" s with
  | None => None
  | Some r => option_map fst (channel_id_at r)
  end.

(** [s.split("/")[-1]]: what follows the last "/" of [s] (all of [s] when
    it has none). *)
Definition last_piece (s : string) : string :=
  rev (fst (span (fun c => negb (Ascii.eqb c "/")) (rev s))).

Section WithRemote.

Variable api : remote.

Definition channel_id_from_search (api_key query : string) : M string :=
  items <- get (SearchChannel api_key query)
               (search_channel api api_key query) ;;
  match items with
  | [] => raise (ValueError ("No channel found for query: " ++ query))
  | cid :: _ => ret cid
  end.

Definition channel_id_from_handle (api_key handle : string) : M string :=
  items <- get (ChannelsForHandle api_key handle)
               (channels_forHandle api api_key handle) ;;
  match items with
  | [] => raise (ValueError ("Handle not found: " ++ handle))
  | cid :: _ => ret cid
  end.

Definition channel_id_from_username (api_key username : string) : M string :=
  items <- get (ChannelsForUsername api_key username)
               (channels_forUsername api api_key username) ;;
  match items with
  | [] => channel_id_from_search api_key username
  | cid :: _ => ret cid
  end.

Definition resolve_to_channel_id (api_key input_str : string) : M string :=
  let s := strip input_str in
  if String.eqb s "" then raise (ValueError "Empty channel input.")
  else if is_channel_id s then ret s
  else if startswith s "http://" || startswith s "https://" then
    match re_search channel_url_at s with
    | Some cid => ret cid
    | None =>
    match re_search (name_after "/@" is_name_char) s with
    | Some h => channel_id_from_handle api_key ("@" ++ h)
    | None =>
    match re_search (name_after "/user/" is_alnum) s with
    | Some u => channel_id_from_username api_key u
    | None =>
    match re_search (name_after "/c/" is_name_char) s with
    | Some c => channel_id_from_search api_key c
    | None =>
        let tail := last_piece (rstrip_char "/" s) in
        channel_id_from_search api_key tail
    end end end end
  else if startswith s "@" then channel_id_from_handle api_key s
  else channel_id_from_username api_key s.

End WithRemote.

End Resolver.

(* ------------------------------------------------------------------ *)
(** ** Video records *)

Module Video.

(** An instant is a number of microseconds since the Unix epoch: the order
    of timezone-aware [datetime] values is the order of their instants. *)
Definition instant : Type := Z.

(** The dict [fetch_video_details] builds for one video. *)
Record t : Type := Make {
  id : string;
  title : string;
  url : string;
  publishedAt : option instant;
  duration_seconds : Z;
  likes : Z;
  comments : Z;
  thumbnail : option string
}.

End Video.

(* ------------------------------------------------------------------ *)
(** ** Calendar dates as instants *)

Module Calendar.

Open Scope Z_scope.

(** Days from 1970-01-01 to the given date of the proleptic Gregorian
    calendar (years counted from March, in eras of 400 years). *)
Definition days_from_civil (y m d : Z) : Z :=
  let y' := if m <=? 2 then y - 1 else y in
  let era := y' / 400 in
  let yoe := y' - era * 400 in
  let mp := if 2 <? m then m - 3 else m + 9 in
  let doy := (153 * mp + 2) / 5 + d - 1 in
  let doe := yoe * 365 + yoe / 4 - yoe / 100 + doy in
  era * 146097 + doe - 719468.

(** The instant of a UTC date and time of day, in microseconds. *)
Definition utc (y m d hh mm ss : Z) : Video.instant :=
  (((days_from_civil y m d * 24 + hh) * 60 + mm) * 60 + ss) * 1000000.

End Calendar.

(* ------------------------------------------------------------------ *)
(** ** API wrappers: the fetch pipeline *)

Module Fetch.

Import Text Net.
Open Scope string_scope.
Open Scope Z_scope.
Open Scope net_scope.

Definition and_then {A B} (r : result A) (f : A -> result B) : result B :=
  match r with
  | Ok a => f a
  | Raise e => Raise e
  end.

Fixpoint map_result {A B} (f : A -> result B) (l : list A)
  : result (list B) :=
  match l with
  | [] => Ok []
  | x :: l' =>
      and_then (f x) (fun y =>
      and_then (map_result f l') (fun ys => Ok (y :: ys)))
  end.

(** [chunk(lst, n)] for [n > 0]: the slices [lst[i:i+n]] for
    [i = 0, n, 2n, ...] below [len(lst)].  The fuel is the length of the
    list, an upper bound on the number of slices. *)
Fixpoint chunk_from {A} (fuel : nat) (lst : list A) (n : nat)
  : list (list A) :=
  match fuel, lst with
  | O, _ => []
  | _, [] => []
  | S fuel', _ => firstn n lst :: chunk_from fuel' (skipn n lst) n
  end.

Definition chunk {A} (lst : list A) (n : nat) : list (list A) :=
  chunk_from (List.length lst) lst n.

(** [ids[:n]], also for a negative [n] *)
Definition slice_to {A} (n : Z) (l : list A) : list A :=
  if 0 <=? n then firstn (Z.to_nat n) l
  else firstn (List.length l - Z.to_nat (- n)) l.

(** [not token] *)
Definition falsy (token : option string) : bool :=
  match token with
  | None => true
  | Some t => String.eqb t ""
  end.

(** [s.isdigit()]: among the code points below 256, besides ['0'..'9'],
    the superscripts one, two and three are digits for [isdigit], and [int]
    rejects them. *)
Definition is_superscript_digit (c : ascii) : bool :=
  N.eqb (code c) 178 || N.eqb (code c) 179 || N.eqb (code c) 185.

Definition isdigit (s : string) : bool :=
  negb (String.eqb s "")
  && all (fun c => is_digit c || is_superscript_digit c) s.

(** [int(s)] for a string that passed [isdigit] *)
Definition int_str (s : string) : result Z :=
  if all is_digit s then int_of_str s
  else Raise (ValueError "invalid literal for int() with base 10").

(** [int(stats.get(k, 0)) if stats.get(k, "0").isdigit() else 0] *)
Definition count_field (x : option string) : result Z :=
  match x with
  | None => Ok 0
  | Some s => if isdigit s then int_str s else Ok 0
  end.

(** [(thumbs.get("maxres") or ... or thumbs.get("default") or {}).get("url")] *)
Definition pick_thumbnail (th : thumbnails) : option string :=
  match maxres th, standard th, high th, medium th, default th with
  | Some u, _, _, _, _ => u
  | None, Some u, _, _, _ => u
  | None, None, Some u, _, _ => u
  | None, None, None, Some u, _ => u
  | None, None, None, None, Some u => u
  | None, None, None, None, None => None
  end.

(** [datetime.min.replace(tzinfo=utc)], 0001-01-01T00:00:00Z *)
Definition datetime_min : Video.instant := -62135596800000000.

Definition sort_key (v : Video.t) : Z :=
  match Video.publishedAt v with
  | Some ts => ts
  | None => datetime_min
  end.

(** [details.sort(key=..., reverse=True)]: descending, and stable (records
    with equal keys keep their order). *)
Fixpoint insert_desc (x : Video.t) (l : list Video.t) : list Video.t :=
  match l with
  | [] => [x]
  | y :: l' =>
      if sort_key x <? sort_key y then y :: insert_desc x l' else x :: l
  end.

Definition sort_newest_first (l : list Video.t) : list Video.t :=
  fold_right insert_desc [] l.

Section WithRemote.

Variable api : remote.

(** [dateutil.parser.parse]: [None] when it raises. *)
Variable dtparse : string -> option Video.instant.

Definition parse_publishedAt (x : option string)
  : result (option Video.instant) :=
  match x with
  | None => Ok None
  | Some s =>
      if String.eqb s "" then Ok None
      else match dtparse s with
           | Some ts => Ok (Some ts)
           | None => Raise ParserError
           end
  end.

(** The body of the inner loop: the record of one item. *)
Definition make_record (it : video_item) : result Video.t :=
  let thumb := pick_thumbnail (item_thumbnails it) in
  let title :=
    match item_title it with Some s => s | None => "" end in
  and_then (parse_publishedAt (item_publishedAt it)) (fun published =>
  and_then (Duration.iso_to_seconds (item_duration it)) (fun dur =>
  and_then (count_field (item_likeCount it)) (fun nlikes =>
  and_then (count_field (item_commentCount it)) (fun ncomments =>
  Ok (Video.Make (item_id it) title
        ("https://www.youtube.com/watch?v=" ++ item_id it)
        published dur nlikes ncomments thumb))))).

Definition get_uploads_playlist_id (api_key channel_id : string) : M string :=
  r <- get (ChannelsContentDetails api_key channel_id)
           (channels_contentDetails api api_key channel_id) ;;
  raise_for_status (fst r) ;;;
  match snd r with
  | [] => raise (ValueError
                   "Channel not found or API key/channel ID invalid.")
  | uploads :: _ => ret uploads
  end.

(** The [while True] loop of [list_upload_video_ids], from the state
    [(ids, token)]. *)
Fixpoint pages (fuel : nat) (api_key uploads_playlist_id : string)
  (max_items : Z) (ids : list string) (token : option string)
  : M (list string) :=
  match fuel with
  | O => out_of_fuel
  | S fuel' =>
      r <- get (PlaylistItems api_key uploads_playlist_id 50 token)
               (playlistItems api api_key uploads_playlist_id 50 token) ;;
      raise_for_status (fst r) ;;;
      let ids' := (ids ++ fst (snd r))%list in
      let token' := snd (snd r) in
      if falsy token' || (max_items <=? Z.of_nat (List.length ids'))
      then ret ids'
      else pages fuel' api_key uploads_playlist_id max_items ids' token'
  end.

Definition list_upload_video_ids (fuel : nat)
  (api_key uploads_playlist_id : string) (max_items : Z)
  : M (list string) :=
  ids <- pages fuel api_key uploads_playlist_id max_items [] None ;;
  ret (slice_to max_items ids).

(** The [for group in chunk(video_ids, 50)] loop, from the state [out]. *)
Fixpoint details (api_key : string) (groups : list (list string))
  (out : list Video.t) : M (list Video.t) :=
  match groups with
  | [] => ret out
  | group :: groups' =>
      r <- get (Videos api_key (String.concat "," group))
               (videos api api_key (String.concat "," group)) ;;
      raise_for_status (fst r) ;;;
      recs <- lift (map_result make_record (snd r)) ;;
      details api_key groups' (out ++ recs)%list
  end.

Definition fetch_video_details (api_key : string) (video_ids : list string)
  : M (list Video.t) :=
  match video_ids with
  | [] => ret []
  | _ => details api_key (chunk video_ids 50) []
  end.

Definition load_channel_data (fuel : nat) (api_key channel_id : string)
  (max_items : Z) : M (list Video.t) :=
  uploads <- get_uploads_playlist_id api_key channel_id ;;
  ids <- list_upload_video_ids fuel api_key uploads max_items ;;
  recs <- fetch_video_details api_key ids ;;
  ret (sort_newest_first recs).

End WithRemote.

End Fetch.

(* ------------------------------------------------------------------ *)
(** ** The KPI aggregator *)

Module Kpi.

Open Scope Z_scope.

Definition in_range (ts : option Video.instant) (start end_ : Video.instant)
  : bool :=
  match ts with
  | None => false
  | Some t => (start <=? t) && (t <? end_)
  end.

(** [max(pool, key=f)] from the running maximum [best]: a later element
    replaces it only when its key is strictly greater. *)
Fixpoint max_from {A} (f : A -> Z) (best : A) (pool : list A) : A :=
  match pool with
  | [] => best
  | x :: pool' =>
      if f best <? f x then max_from f x pool' else max_from f best pool'
  end.

(** [max(pool, key=f) if pool else None] *)
Definition top_by {A} (f : A -> Z) (pool : list A) : option A :=
  match pool with
  | [] => None
  | x :: pool' => Some (max_from f x pool')
  end.

Record kpis : Type := Kpis {
  items : list Video.t;
  count_total : Z;
  count_videos : Z;
  count_shorts : Z;
  most_liked : option Video.t;
  most_commented : option Video.t
}.

(** [[v for v in videos if in_range(v["publishedAt"], start, end)]] *)
Definition items_in_range (videos : list Video.t)
  (start end_ : Video.instant) : list Video.t :=
  filter (fun v => in_range (Video.publishedAt v) start end_) videos.

(** [[v for v in items if v["duration_seconds"] > short_threshold_sec]] *)
Definition videos_only (short_threshold_sec : Z) (items : list Video.t)
  : list Video.t :=
  filter (fun v => short_threshold_sec <? Video.duration_seconds v) items.

(** [[v for v in items if v["duration_seconds"] <= short_threshold_sec]] *)
Definition shorts_only (short_threshold_sec : Z) (items : list Video.t)
  : list Video.t :=
  filter (fun v => Video.duration_seconds v <=? short_threshold_sec) items.

Definition compute_kpis (videos : list Video.t)
  (start end_ : Video.instant) (short_threshold_sec : Z) : kpis :=
  let items := items_in_range videos start end_ in
  let videos_only := videos_only short_threshold_sec items in
  let shorts_only := shorts_only short_threshold_sec items in
  Kpis items
       (Z.of_nat (List.length items))
       (Z.of_nat (List.length videos_only))
       (Z.of_nat (List.length shorts_only))
       (top_by Video.likes items)
       (top_by Video.comments items).

End Kpi.

(* ------------------------------------------------------------------ *)
(** ** Well-formed durations, as the specification words them *)

Module DurationShape.

Import Text.
Open Scope string_scope.

(** A non-empty run of decimal digits: the [#] of [PT#H#M#S]. *)
Definition digits (ds : string) : bool :=
  negb (String.eqb ds "") && all is_digit ds.

(** A component that may be missing. *)
Definition group_ok (g : option string) : bool :=
  match g with
  | Some ds => digits ds
  | None => true
  end.

Definition component (g : option string) (X : ascii) : string :=
  match g with
  | Some ds => ds ++ String X ""
  | None => ""
  end.

(** The text [PT#H#M#S] with the given components. *)
Definition render (h m s : option string) : string :=
  "PT" ++ component h "H" ++ component m "M" ++ component s "S".

(** A well-formed duration of the shape [PT#H#M#S], any component
    optional. *)
Definition well_formed (iso : string) : Prop :=
  exists h m s,
    group_ok h = true /\ group_ok m = true /\ group_ok s = true /\
    iso = render h m s.

End DurationShape.

(* ------------------------------------------------------------------ *)
(** ** The canonical channel-ID shape, as the specification words it *)

Module ChannelShape.

Import Text.
Open Scope string_scope.

(** The fixed two-letter prefix, then 22 characters drawn from
    alphanumerics, underscore and hyphen. *)
Definition canonical (s : string) : Prop :=
  exists t,
    s = "UC" ++ t /\ String.length t = 22%nat /\
    all (fun c => is_alnum c || Ascii.eqb c "_" || Ascii.eqb c "-") t = true.

(** Empty or made of whitespace only. *)
Definition blank (s : string) : bool := all is_space s.

End ChannelShape.

(* ------------------------------------------------------------------ *)
(** ** A remote side that serves an uploads container in pages *)

Module Served.

Import Net.
Open Scope string_scope.

(** The page of [L] that starts at offset [off]: at most 50 items, and the
    token of the next page when there is one.  [tok off] is the token that
    names the page starting at [off]. *)
Definition page_of (tok : nat -> string) (L : list string) (off : nat)
  : list string * option string :=
  (firstn 50 (skipn off L),
   if (off + 50 <? List.length L)%nat then Some (tok (off + 50)) else None).

(** The [playlistItems] endpoint serves the container [L] of the playlist
    in pages of 50, with status 200. *)
Definition serves_pages (api : remote) (api_key playlist_id : string)
  (tok : nat -> string) (L : list string) : Prop :=
  (forall off, tok off <> "") /\
  playlistItems api api_key playlist_id 50 None = (200%Z, page_of tok L 0) /\
  (forall off, (0 < off)%nat ->
     playlistItems api api_key playlist_id 50 (Some (tok off))
     = (200%Z, page_of tok L off)).

(** The [videos] endpoint answers the batch [group] with status 200 and one
    item per ID, each of which [fetch_video_details] turns into a record. *)
Definition answers_batch (api : remote)
  (dtparse : string -> option Video.instant) (api_key : string)
  (group : list string) : Prop :=
  exists items recs,
    videos api api_key (String.concat "," group) = (200%Z, items) /\
    List.length items = List.length group /\
    Fetch.map_result (Fetch.make_record dtparse) items = Ok recs.

Definition serves_videos (api : remote)
  (dtparse : string -> option Video.instant) (api_key : string)
  (ids : list string) : Prop :=
  Forall (answers_batch api dtparse api_key) (Fetch.chunk ids 50).

End Served.

(* ------------------------------------------------------------------ *)
(** ** A sample remote side, to run the functions on *)

Module Sample.

Import Net.
Open Scope string_scope.

Fixpoint unary (n : nat) : string :=
  match n with
  | O => ""
  | S n' => String "x" (unary n')
  end.

(** 130 uploads: "v", "vx", "vxx", ... *)
Definition uploads : list string :=
  map (fun n => "v" ++ unary n) (seq 0 130).

Fixpoint split (sep : ascii) (s : string) : list string :=
  match s with
  | "" => [""]
  | String c s' =>
      if Ascii.eqb c sep then "" :: split sep s'
      else match split sep s' with
           | piece :: pieces => String c piece :: pieces
           | [] => [String c ""]
           end
  end.

Definition item_of (video_id : string) : video_item :=
  VideoItem video_id (Some "title") (Some "2024-01-15T00:00:00Z") "PT1M5S"
            (Some "3") None (Thumbnails None None None None None).

(** The token of the page at offset [off] is "t" followed by [off] in
    unary. *)
Definition token (off : nat) : string := String "t" (unary off).

Definition offset_of (page_token : option string) : nat :=
  match page_token with
  | None => O
  | Some t => String.length t - 1
  end.

Definition api : remote :=
  Remote (fun _ _ => []) (fun _ _ => []) (fun _ _ => [])
         (fun _ _ => (200%Z, ["UUsample"]))
         (fun _ _ _ page_token =>
            (200%Z, Served.page_of token uploads (offset_of page_token)))
         (fun _ ids => (200%Z, map item_of (split "," ids))).

Definition dtparse (s : string) : option Video.instant :=
  Some (Calendar.utc 2024 1 15 0 0 0).

End Sample.

(* ------------------------------------------------------------------ *)
(** ** The requests of the pagination loop *)

Module Paging.

Import Net.

(** The token sent with the request for page [k] (pages count from 0):
    none for the first page, then the token of the offset [50 * k]. *)
Definition page_token (tok : nat -> string) (k : nat) : option string :=
  match k with
  | O => None
  | S _ => Some (tok (50 * k)%nat)
  end.

(** The requests for the first [n] pages of a playlist. *)
Definition page_calls (api_key playlist_id : string) (tok : nat -> string)
  (n : nat) : list request :=
  map (fun k => PlaylistItems api_key playlist_id 50 (page_token tok k))
      (seq 0 n).

(** The number of pages to fetch for [max_items] IDs out of a container of
    [len]: one at least, then as many pages of 50 as cover the smaller of
    the two. *)
Definition calls_needed (max_items len : nat) : nat :=
  Nat.max 1 ((Nat.min max_items len + 49) / 50).

(** A request of the [playlistItems] endpoint for 50 items of the given
    playlist. *)
Definition is_page_call (api_key playlist_id : string) (rq : request)
  : Prop :=
  exists page_token, rq = PlaylistItems api_key playlist_id 50 page_token.

(** A remote side whose [playlistItems] endpoint makes no progress: every
    page is empty and carries the token [t] of a next page. *)
Definition stuck (t : string) : remote :=
  Remote (fun _ _ => []) (fun _ _ => []) (fun _ _ => [])
         (fun _ _ => (200%Z, []))
         (fun _ _ _ _ => (200%Z, ([], Some t)))
         (fun _ _ => (200%Z, [])).

End Paging.

(* ------------------------------------------------------------------ *)
(** ** Batches of the details lookup *)

Module Batches.

Import Net.
Open Scope string_scope.

(** The request for one batch of IDs. *)
Definition batch_call (api_key : string) (group : list string) : request :=
  Videos api_key (String.concat "," group).

(** The lookup of the batch [group] fails with [e]: the endpoint answers
    with a 4xx or 5xx status, or one of the items it returns cannot be
    turned into a record. *)
Definition batch_fails (api : remote)
  (dtparse : string -> option Video.instant) (api_key : string)
  (group : list string) (e : exn) : Prop :=
  exists status items,
    videos api api_key (String.concat "," group) = (status, items) /\
    ((((400 <=? status) && (status <? 600))%Z = true /\
      e = HTTPError status)
     \/ (((400 <=? status) && (status <? 600))%Z = false /\
         Fetch.map_result (Fetch.make_record dtparse) items = Raise e)).

(** What every record built by [fetch_video_details] satisfies. *)
Definition record_ok (v : Video.t) : Prop :=
  Video.url v = "https://www.youtube.com/watch?v=" ++ Video.id v /\
  (0 <= Video.duration_seconds v)%Z /\
  (0 <= Video.likes v)%Z /\ (0 <= Video.comments v)%Z.

(** The sample remote side, except that the details lookup whose ID list is
    [bad] answers with status 503. *)
Definition failing_on (bad : string) : remote :=
  Remote (channels_forHandle Sample.api) (channels_forUsername Sample.api)
         (search_channel Sample.api) (channels_contentDetails Sample.api)
         (playlistItems Sample.api)
         (fun api_key ids =>
            if String.eqb ids bad then (503%Z, [])
            else videos Sample.api api_key ids).

End Batches.

(* ------------------------------------------------------------------ *)
(** ** Plain ASCII text *)

Module Ascii7.

Definition is_ascii (c : ascii) : bool := N.ltb (Text.code c) 128.

End Ascii7.

(* ------------------------------------------------------------------ *)
(** ** The order of the sorted records *)

Module Newest.

(** [a] may stand before [b]: it is not older. *)
Definition not_older (a b : Video.t) : Prop :=
  (Fetch.sort_key b <= Fetch.sort_key a)%Z.

End Newest.

(* ------------------------------------------------------------------ *)
(** ** The lookups of the resolver *)

Module Lookup.

Import Net.

(** What a lookup does: one or two requests, then a channel ID or a
    [ValueError]. *)
Definition lookup_like (m : M string) : Prop :=
  forall l : log,
  exists r calls,
    m l = Some (r, (l ++ calls)%list) /\
    (1 <= List.length calls <= 2)%nat /\
    match r with
    | Ok _ => True
    | Raise e => exists msg, e = ValueError msg
    end.

(** The requests the resolver may have made by the time it ends: none, one
    handle lookup, one search, or one username lookup followed, when it
    found nothing, by one search for the same name. *)
Definition lookup_requests (api : remote) (api_key : string) (l : log)
  : Prop :=
  l = [] \/
  (exists h, l = [ChannelsForHandle api_key h]) \/
  (exists q, l = [SearchChannel api_key q]) \/
  (exists u, l = [ChannelsForUsername api_key u] /\
             channels_forUsername api api_key u <> []) \/
  (exists u, l = [ChannelsForUsername api_key u; SearchChannel api_key u] /\
             channels_forUsername api api_key u = []).

End Lookup.

(* ------------------------------------------------------------------ *)
(** ** Text that is no component of a duration *)

Module Units.

Import Text.
Open Scope string_scope.

(** The text is empty or begins with a character that is neither a digit
    nor one of the unit letters H, M and S. *)
Definition no_unit (rest : string) : bool :=
  match rest with
  | "" => true
  | String c _ =>
      negb (is_digit c || Ascii.eqb c "H" || Ascii.eqb c "M"
            || Ascii.eqb c "S")
  end.

End Units.

(* ------------------------------------------------------------------ *)
(** ** The keyword filter of the dashboard *)

Module Dashboard.

Import Text.
Open Scope string_scope.

(** [c.lower()] for a code point below 256: the letters A to Z, and the
    accented capitals from 192 to 222 except the multiplication sign. *)
Definition lower_char (c : ascii) : ascii :=
  if is_upper c
     || (between 192 222 c && negb (N.eqb (code c) 215))
  then ascii_of_N (code c + 32)
  else c.

(** [s.lower()] *)
Fixpoint lower (s : string) : string :=
  match s with
  | "" => ""
  | String c s' => String (lower_char c) (lower s')
  end.

(** [kw in t] *)
Fixpoint contains (kw t : string) : bool :=
  match strip_prefix kw t with
  | Some _ => true
  | None =>
      match t with
      | "" => false
      | String _ t' => contains kw t'
      end
  end.

(** [st.session_state.get("search_kw", "").strip().lower()] *)
Definition keyword (search_kw : string) : string :=
  lower (strip search_kw).

(** [[v for v in videos if kw in v["title"].lower()] if kw else videos] *)
Definition videos_filtered (search_kw : string) (videos : list Video.t)
  : list Video.t :=
  let kw := keyword search_kw in
  if String.eqb kw "" then videos
  else filter (fun v => contains kw (lower (Video.title v))) videos.

End Dashboard.

(* ------------------------------------------------------------------ *)
(** ** The seconds a duration stands for *)

Module DurationValue.

Import Text.
Open Scope Z_scope.

(** The number a run of decimal digits stands for, each digit weighed by
    its position. *)
Fixpoint number (ds : string) : Z :=
  match ds with
  | EmptyString => 0
  | String c ds' =>
      digit_value c * 10 ^ Z.of_nat (String.length ds') + number ds'
  end.

(** A missing component counts as 0. *)
Definition value (g : option string) : Z :=
  match g with
  | Some ds => number ds
  | None => 0
  end.

Definition seconds_of (h m s : option string) : Z :=
  value h * 3600 + value m * 60 + value s.

(** The component has no more digits than [int] converts. *)
Definition within_limit (g : option string) : bool :=
  match g with
  | Some ds => (String.length ds <=? 4300)%nat
  | None => true
  end.

End DurationValue.

(* ------------------------------------------------------------------ *)
(** ** A remote side that leaves videos out *)

Module Lossy.

Import Net.
Open Scope string_scope.

(** The sample remote side, except that the details lookup returns an item
    for the first ID of a batch only (the others deleted or private,
    say). *)
Definition api : remote :=
  Remote (channels_forHandle Sample.api) (channels_forUsername Sample.api)
         (search_channel Sample.api) (channels_contentDetails Sample.api)
         (playlistItems Sample.api)
         (fun _ ids =>
            (200%Z,
             match Sample.split "," ids with
             | first :: _ => [Sample.item_of first]
             | [] => []
             end)).

End Lossy.

(* ================================================================== *)
(** * Properties *)

(* ------------------------------------------------------------------ *)
(** ** Strings *)

Module TextFacts.

Import Text.
Open Scope string_scope.

Lemma append_nil_r (s : string) : s ++ "" = s.
Proof. induction s as [|c s IH]; simpl; [reflexivity | now rewrite IH]. Qed.

Lemma append_assoc (a b c : string) : (a ++ b) ++ c = a ++ (b ++ c).
Proof. induction a as [|x a IH]; simpl; [reflexivity | now rewrite IH]. Qed.

Lemma span_spec (p : ascii -> bool) (s : string) :
  s = fst (span p s) ++ snd (span p s) /\ all p (fst (span p s)) = true.
Proof.
  induction s as [|c s [IH1 IH2]]; simpl; [now split|].
  destruct (p c) eqn:Hc; simpl; [|now split].
  destruct (span p s) as [a b]; simpl in *.
  split; [now rewrite <- IH1 | now rewrite Hc].
Qed.

(** A run of [p]-characters closed by a character outside [p] is what
    [span] cuts off. *)
Lemma span_app (p : ascii -> bool) (ds : string) (c : ascii) (r : string) :
  all p ds = true -> p c = false ->
  span p (ds ++ String c r) = (ds, String c r).
Proof.
  intros Hds Hc. induction ds as [|d ds IH]; simpl in *.
  - now rewrite Hc.
  - apply andb_true_iff in Hds as [Hd Hds]. rewrite Hd, (IH Hds). reflexivity.
Qed.

Lemma strip_prefix_spec (p s r : string) :
  strip_prefix p s = Some r <-> s = p ++ r.
Proof.
  revert s; induction p as [|a p IH]; intros s; simpl.
  - split; [now intros [= ->] | now intros ->].
  - destruct s as [|b s]; [split; discriminate|].
    destruct (Ascii.eqb_spec a b) as [->|Hne].
    + rewrite IH. split; [now intros -> | now intros [= ->]].
    + split; [discriminate | intros [= E _]; now destruct Hne].
Qed.

Lemma digit_value_nonneg (c : ascii) :
  is_digit c = true -> (0 <= digit_value c <= 9)%Z.
Proof.
  unfold is_digit, between, digit_value. intros H.
  apply andb_true_iff in H as [H1 H2].
  apply N.leb_le in H1, H2. lia.
Qed.

Lemma int_acc_nonneg (ds : string) (acc : Z) :
  all is_digit ds = true -> (0 <= acc)%Z -> (0 <= int_acc acc ds)%Z.
Proof.
  revert acc; induction ds as [|d ds IH]; intros acc Hds Hacc;
    cbn [all int_acc] in *.
  - exact Hacc.
  - apply andb_true_iff in Hds as [Hd Hds].
    apply IH; [exact Hds|]. pose proof (digit_value_nonneg d Hd). lia.
Qed.

Lemma int_of_digits_nonneg (ds : string) :
  all is_digit ds = true -> (0 <= int_of_digits ds)%Z.
Proof. intros H. apply int_acc_nonneg; [exact H | lia]. Qed.

End TextFacts.

(* ------------------------------------------------------------------ *)
(** ** The duration decoder *)

Module DurationFacts.

Import Text TextFacts Duration DurationShape DurationValue.
Open Scope string_scope.
Open Scope Z_scope.

Lemma digits_inv (ds : string) :
  digits ds = true ->
  exists d ds', ds = String d ds' /\ all is_digit ds = true.
Proof.
  unfold digits. intros H. apply andb_true_iff in H as [Hne Hall].
  destruct ds as [|d ds']; [discriminate|]. now exists d, ds'.
Qed.

(** What an optional group returns: the group it captured, in front of the
    text it left. *)
Lemma opt_group_inv (X : ascii) (s : string) (g : option string) (r : string) :
  opt_group X s = (g, r) -> s = component g X ++ r /\ group_ok g = true.
Proof.
  unfold opt_group. pose proof (span_spec is_digit s) as [Hs Hall].
  destruct (span is_digit s) as [a b]; simpl in *.
  destruct a as [|d ds]; [intros [= <- <-]; now split|].
  destruct b as [|c rest]; [intros [= <- <-]; now split|].
  destruct (Ascii.eqb_spec c X) as [->|_]; intros [= <- <-]; [|now split].
  split; [|exact Hall].
  simpl. rewrite Hs. simpl. f_equal. now rewrite append_assoc.
Qed.

(** A present component is read back. *)
Lemma opt_group_present (X : ascii) (ds r : string) :
  is_digit X = false -> digits ds = true ->
  opt_group X (ds ++ String X r) = (Some ds, r).
Proof.
  intros HX Hds. destruct (digits_inv _ Hds) as (d & ds' & -> & Hall).
  unfold opt_group. rewrite (span_app is_digit _ X r Hall HX).
  now rewrite Ascii.eqb_refl.
Qed.

(** A component closed by another letter is not taken for this one. *)
Lemma opt_group_other (X Y : ascii) (ds r : string) :
  is_digit Y = false -> X <> Y -> all is_digit ds = true ->
  opt_group X (ds ++ String Y r) = (None, ds ++ String Y r).
Proof.
  intros HY Hne Hall. unfold opt_group.
  rewrite (span_app is_digit _ Y r Hall HY).
  destruct ds as [|d ds']; [reflexivity|].
  destruct (Ascii.eqb_spec Y X) as [->|_]; [now destruct Hne | reflexivity].
Qed.

Lemma opt_group_nil (X : ascii) : opt_group X "" = (None, "").
Proof. reflexivity. Qed.

Ltac present :=
  rewrite ?append_assoc; simpl;
  rewrite opt_group_present by (reflexivity || assumption).

Ltac absent :=
  rewrite ?append_assoc; simpl;
  first [ rewrite opt_group_nil
        | rewrite opt_group_other
            by (reflexivity || discriminate || assumption) ].

Ltac digits_of H :=
  let d := fresh "d" in let ds := fresh "ds" in let Hall := fresh "Hall" in
  pose proof H as Hall; apply digits_inv in Hall as (d & ds & _ & Hall).

(** The decoder reads a rendered duration back, component by component. *)
Lemma re_match_render (h m s : option string) :
  group_ok h = true -> group_ok m = true -> group_ok s = true ->
  re_match (render h m s) = Some (MatchObj h m s "").
Proof.
  intros Hh Hm Hs. unfold render, re_match. simpl.
  destruct h as [h|], m as [m|], s as [s|]; simpl in *;
    try digits_of Hh; try digits_of Hm; try digits_of Hs;
    repeat first [present | absent]; reflexivity.
Qed.

(** Whatever follows the prefix "PT", the match succeeds, and the input is
    the rendering of the captured groups followed by the unmatched text. *)
Lemma re_match_inv (iso : string) (mo : match_obj) :
  re_match iso = Some mo ->
  iso = render (group1 mo) (group2 mo) (group3 mo) ++ unmatched mo /\
  group_ok (group1 mo) = true /\ group_ok (group2 mo) = true /\
  group_ok (group3 mo) = true.
Proof.
  unfold re_match. destruct (strip_prefix "PT" iso) as [s0|] eqn:E0;
    [|discriminate].
  apply strip_prefix_spec in E0.
  destruct (opt_group "H" s0) as [g1 s1] eqn:E1.
  destruct (opt_group "M" s1) as [g2 s2] eqn:E2.
  destruct (opt_group "S" s2) as [g3 s3] eqn:E3.
  intros [= <-]; simpl.
  apply opt_group_inv in E1 as [-> H1], E2 as [-> H2], E3 as [-> H3].
  repeat split; try assumption.
  rewrite E0. unfold render. simpl. now rewrite !append_assoc.
Qed.

Lemma re_match_startswith (iso : string) :
  startswith iso "PT" = true -> exists mo, re_match iso = Some mo.
Proof.
  unfold startswith, re_match.
  destruct (strip_prefix "PT" iso) as [s0|]; [intros _|discriminate].
  destruct (opt_group "H" s0) as [g1 s1].
  destruct (opt_group "M" s1) as [g2 s2].
  destruct (opt_group "S" s2) as [g3 s3]. eauto.
Qed.

Lemma re_match_no_prefix (iso : string) :
  startswith iso "PT" = false -> re_match iso = None.
Proof.
  unfold startswith, re_match.
  destruct (strip_prefix "PT" iso); [discriminate | reflexivity].
Qed.

Lemma append_length (a b : string) :
  String.length (a ++ b) = (String.length a + String.length b)%nat.
Proof. induction a as [|c a IH]; cbn; [reflexivity | now rewrite IH]. Qed.

Lemma int_acc_number (ds : string) (acc : Z) :
  int_acc acc ds = acc * 10 ^ Z.of_nat (String.length ds) + number ds.
Proof.
  revert acc; induction ds as [|c ds IH]; intros acc;
    cbn [int_acc number String.length].
  - change (Z.of_nat 0) with 0. lia.
  - rewrite IH, Nat2Z.inj_succ, Z.pow_succ_r by lia. ring.
Qed.

Lemma int_of_digits_number (ds : string) : int_of_digits ds = number ds.
Proof. unfold int_of_digits. rewrite int_acc_number. lia. Qed.

(** [int(g or 0)]: the value of the group when its digits are within the
    limit, a [ValueError] when they are not. *)
Lemma int_or_0_spec (g : option string) :
  group_ok g = true ->
  if within_limit g
  then int_or_0 g = Ok (value g) /\ 0 <= value g
  else exists msg, int_or_0 g = Raise (ValueError msg).
Proof.
  destruct g as [ds|]; cbn [int_or_0 within_limit value group_ok];
    [|intros _; split; [reflexivity | lia]].
  intros H. apply digits_inv in H as (_ & _ & _ & H).
  unfold int_of_str, int_max_str_digits.
  destruct (String.length ds <=? 4300)%nat; [|eauto].
  rewrite <- int_of_digits_number.
  split; [reflexivity | now apply int_of_digits_nonneg].
Qed.

(** The decoder on an input the regex matches: the seconds of the groups
    captured, or the [ValueError] of a group beyond the limit. *)
Lemma iso_to_seconds_matched (iso : string) (mo : match_obj) :
  re_match iso = Some mo ->
  if within_limit (group1 mo) && within_limit (group2 mo)
     && within_limit (group3 mo)
  then iso_to_seconds iso
       = Ok (seconds_of (group1 mo) (group2 mo) (group3 mo)) /\
       0 <= seconds_of (group1 mo) (group2 mo) (group3 mo)
  else exists msg, iso_to_seconds iso = Raise (ValueError msg).
Proof.
  intros Hmo. unfold iso_to_seconds. rewrite Hmo.
  apply re_match_inv in Hmo as (_ & H1 & H2 & H3).
  apply int_or_0_spec in H1, H2, H3. unfold seconds_of.
  destruct (within_limit (group1 mo)); cbn [andb].
  - destruct H1 as [-> ?].
    destruct (within_limit (group2 mo)); cbn [andb].
    + destruct H2 as [-> ?].
      destruct (within_limit (group3 mo)).
      * destruct H3 as [-> ?]. split; [reflexivity | lia].
      * destruct H3 as [msg ->]. eauto.
    + destruct H2 as [msg ->]. eauto.
  - destruct H1 as [msg ->]. eauto.
Qed.

(** The decoder raises [AttributeError] on an input without the prefix
    "PT"; on an input with it, it returns a non-negative number or raises
    the [ValueError] of [int]. *)
Lemma iso_to_seconds_cases (iso : string) :
  (startswith iso "PT" = false /\ iso_to_seconds iso = Raise AttributeError)
  \/ (startswith iso "PT" = true /\
      ((exists n, 0 <= n /\ iso_to_seconds iso = Ok n) \/
       (exists msg, iso_to_seconds iso = Raise (ValueError msg)))).
Proof.
  destruct (startswith iso "PT") eqn:E.
  - right. split; [reflexivity|].
    destruct (re_match_startswith _ E) as [mo Hmo].
    pose proof (iso_to_seconds_matched _ Hmo) as H.
    destruct (within_limit (group1 mo) && within_limit (group2 mo)
              && within_limit (group3 mo)).
    + left. destruct H as [-> ?]. eauto.
    + now right.
  - left. split; [reflexivity|].
    unfold iso_to_seconds. now rewrite re_match_no_prefix.
Qed.

(** A well-formed duration is matched to its end. *)
Lemma well_formed_matched (iso : string) :
  well_formed iso ->
  exists mo, re_match iso = Some mo /\ unmatched mo = "".
Proof.
  intros (h & m & s & Hh & Hm & Hs & ->).
  rewrite (re_match_render _ _ _ Hh Hm Hs). eauto.
Qed.

(** The well-formed durations are the inputs the regex matches to their
    end. *)
Lemma well_formed_iff_matched (iso : string) :
  well_formed iso <->
  exists mo, re_match iso = Some mo /\ unmatched mo = "".
Proof.
  split; [apply well_formed_matched|].
  intros (mo & Hmo & Hrest).
  apply re_match_inv in Hmo as (Hiso & H1 & H2 & H3).
  rewrite Hrest, append_nil_r in Hiso.
  now exists (group1 mo), (group2 mo), (group3 mo).
Qed.

Lemma not_well_formed_PTabc : ~ well_formed "PTabc".
Proof.
  intros H. apply well_formed_matched in H as (mo & Hmo & Hrest).
  vm_compute in Hmo. injection Hmo as <-. discriminate Hrest.
Qed.

Example iso_to_seconds_PT5M : iso_to_seconds "PT5M" = Ok 300.
Proof. reflexivity. Qed.

Example iso_to_seconds_trailing : iso_to_seconds "PT1H30Mxyz" = Ok 5400.
Proof. reflexivity. Qed.

(** C7: the decoder maps "PT1H2M3S" to 3723, "PT45S" to 45, "PT2H" to 7200
    and "PT" to 0; in general a duration [PT#H#M#S], each component present
    or not and of at most 4300 digits (the most [int] converts), decodes to
    hours * 3600 + minutes * 60 + seconds where a missing component counts
    as 0. *)
Theorem iso_to_seconds_decodes :
  iso_to_seconds "PT1H2M3S" = Ok 3723 /\
  iso_to_seconds "PT45S" = Ok 45 /\
  iso_to_seconds "PT2H" = Ok 7200 /\
  iso_to_seconds "PT" = Ok 0 /\
  forall h m s : option string,
    group_ok h = true -> group_ok m = true -> group_ok s = true ->
    within_limit h = true -> within_limit m = true ->
    within_limit s = true ->
    iso_to_seconds (render h m s)
    = Ok (match h with Some ds => int_of_digits ds | None => 0 end * 3600
          + match m with Some ds => int_of_digits ds | None => 0 end * 60
          + match s with Some ds => int_of_digits ds | None => 0 end).
Proof.
  repeat split; try reflexivity.
  intros h m s Hh Hm Hs Lh Lm Ls.
  pose proof (iso_to_seconds_matched _ (re_match_render _ _ _ Hh Hm Hs)) as H.
  cbn [group1 group2 group3] in H. rewrite Lh, Lm, Ls in H.
  destruct H as [-> _]. unfold seconds_of, value.
  destruct h, m, s; now rewrite ?int_of_digits_number.
Qed.

Lemma iso_to_seconds_decodes_witness :
  iso_to_seconds (render (Some "1") None (Some "30")) = Ok 3630.
Proof.
  exact (proj2 (proj2 (proj2 (proj2 iso_to_seconds_decodes)))
           (Some "1") None (Some "30") eq_refl eq_refl eq_refl
           eq_refl eq_refl eq_refl).
Defined.

(** C9: the decoder is partial.  On every input that does not begin with
    "PT" (a duration with a day part such as "P1DT2H" is one) the regex
    match is [None] and the decoder raises; whenever it returns a number,
    the input begins with "PT" and the number is non-negative. *)
Theorem iso_to_seconds_partial :
  (forall iso : string,
     startswith iso "PT" = false ->
     iso_to_seconds iso = Raise AttributeError) /\
  (forall (iso : string) (n : Z),
     iso_to_seconds iso = Ok n -> startswith iso "PT" = true /\ 0 <= n) /\
  iso_to_seconds "P1DT2H" = Raise AttributeError.
Proof.
  split; [|split; [|reflexivity]].
  - intros iso H.
    destruct (iso_to_seconds_cases iso) as [[_ E]|[E _]]; [exact E|].
    rewrite E in H; discriminate.
  - intros iso n H.
    destruct (iso_to_seconds_cases iso)
      as [[_ E]|[E [(k & Hk & Ek)|(msg & Ek)]]].
    + rewrite E in H; discriminate.
    + rewrite Ek in H. injection H as <-. now split.
    + rewrite Ek in H; discriminate.
Qed.

Lemma iso_to_seconds_partial_witness :
  iso_to_seconds "1H" = Raise AttributeError /\
  (startswith "PT7S" "PT" = true /\ 0 <= 7).
Proof.
  split.
  - apply (proj1 iso_to_seconds_partial "1H"). reflexivity.
  - apply (proj1 (proj2 iso_to_seconds_partial) "PT7S" 7). reflexivity.
Defined.

(** C1, as the specification states it, fails: "PTabc" is not a well-formed
    duration, and the decoder returns 0 for it. *)
Lemma iso_to_seconds_PTabc_is_zero :
  ~ well_formed "PTabc" /\ iso_to_seconds "PTabc" = Ok 0.
Proof. split; [exact not_well_formed_PTabc | reflexivity]. Qed.

(** Two components with different unit letters cannot both stand at the
    head of one text. *)
Lemma component_blocks (X Y : ascii) (ds r dm r2 : string) :
  digits ds = true -> digits dm = true ->
  is_digit X = false -> is_digit Y = false -> X <> Y ->
  ds ++ String X r = dm ++ String Y r2 -> False.
Proof.
  intros Hds Hdm HX HY Hne E.
  pose proof (@opt_group_present Y dm r2 HY Hdm) as H1.
  apply digits_inv in Hds as (_ & _ & _ & Hall).
  assert (H2 : opt_group Y (ds ++ String X r) = (None, ds ++ String X r))
    by (apply opt_group_other; [exact HX | congruence | exact Hall]).
  rewrite E, H1 in H2. discriminate.
Qed.

(** One optional group against a text that begins with a component of its
    letter, or with none: the group takes that component, or it takes one
    where the text was read as beginning with none. *)
Lemma opt_group_stage (X : ascii) (t rest' rest : string)
  (g' g : option string) :
  is_digit X = false -> group_ok g' = true ->
  t = component g' X ++ rest' ->
  opt_group X t = (g, rest) ->
  (g = g' /\ rest = rest') \/
  (g' = None /\ exists ds,
     g = Some ds /\ digits ds = true /\ t = ds ++ String X rest).
Proof.
  intros HX Hg' Ht E. destruct g' as [dm|]; cbn [component] in Ht.
  - left. rewrite Ht, append_assoc in E. cbn [append] in E.
    rewrite (@opt_group_present X dm rest' HX Hg') in E.
    now injection E as <- <-.
  - cbn in Ht. subst rest'.
    pose proof (@opt_group_inv _ _ _ _ E) as [Hs Hg].
    destruct g as [ds|]; [right | left; now split].
    split; [reflexivity|]. exists ds. repeat split; [exact Hg|].
    rewrite Hs. cbn [component]. now rewrite append_assoc.
Qed.

Lemma render_length (h m s : option string) :
  String.length (render h m s)
  = (2 + String.length (component h "H") + String.length (component m "M")
     + String.length (component s "S"))%nat.
Proof. unfold render. cbn [append String.length]. rewrite !append_length. lia. Qed.

(** No well-formed duration that the input begins with is longer than the
    one the regex matches. *)
Lemma re_match_longest (iso : string) (mo : match_obj)
  (h m s : option string) (r : string) :
  re_match iso = Some mo ->
  group_ok h = true -> group_ok m = true -> group_ok s = true ->
  iso = render h m s ++ r ->
  (String.length (render h m s)
   <= String.length (render (group1 mo) (group2 mo) (group3 mo)))%nat.
Proof.
  unfold re_match. intros Hmo Hh Hm Hs Hiso.
  destruct (strip_prefix "PT" iso) as [s0|] eqn:E0; [|discriminate].
  apply strip_prefix_spec in E0.
  assert (Hs0 : s0 = component h "H"
                     ++ (component m "M" ++ (component s "S" ++ r))).
  { rewrite E0 in Hiso. unfold render in Hiso. cbn [append] in Hiso.
    injection Hiso as ->. now rewrite !append_assoc. }
  destruct (opt_group "H" s0) as [g1 s1] eqn:E1.
  destruct (opt_group "M" s1) as [g2 s2] eqn:E2.
  destruct (opt_group "S" s2) as [g3 s3] eqn:E3.
  injection Hmo as <-. cbn [group1 group2 group3].
  rewrite !render_length.
  destruct (@opt_group_stage "H" _ _ _ _ _ eq_refl Hh Hs0 E1)
    as [[-> ->]|(-> & ds & -> & Hds & Hds0)].
  - destruct (@opt_group_stage "M" _ _ _ _ _ eq_refl Hm eq_refl E2)
      as [[-> ->]|(-> & ds & -> & Hds & Hds1)].
    + destruct (@opt_group_stage "S" _ _ _ _ _ eq_refl Hs eq_refl E3)
        as [[-> ->]|(-> & ds & -> & Hds & Hds2)];
        cbn [component String.length]; lia.
    + cbn [component append] in Hds1.
      destruct s as [dm|]; [|cbn [component String.length]; lia].
      exfalso. cbn [component] in Hds1. rewrite append_assoc in Hds1.
      cbn [append] in Hds1. symmetry in Hds1.
      apply (@component_blocks "M" "S" _ _ _ _ Hds Hs eq_refl eq_refl)
        in Hds1; [exact Hds1 | discriminate].
  - cbn [component append] in Hs0. rewrite Hs0 in Hds0.
    destruct m as [dm|].
    + exfalso. cbn [component] in Hds0. rewrite append_assoc in Hds0.
      cbn [append] in Hds0. symmetry in Hds0.
      apply (@component_blocks "H" "M" _ _ _ _ Hds Hm eq_refl eq_refl)
        in Hds0; [exact Hds0 | discriminate].
    + cbn [component append] in Hds0.
      destruct s as [dm|]; [|cbn [component String.length]; lia].
      exfalso. cbn [component] in Hds0. rewrite append_assoc in Hds0.
      cbn [append] in Hds0. symmetry in Hds0.
      apply (@component_blocks "H" "S" _ _ _ _ Hds Hs eq_refl eq_refl)
        in Hds0; [exact Hds0 | discriminate].
Qed.

(** C1, amended: on a string that is not a well-formed duration the decoder
    raises when the string does not begin with "PT".  When it does, the
    decoder does not reject the string: it takes the longest well-formed
    duration the string begins with, ignores the text after it, and returns
    the seconds that duration stands for (hours * 3600 + minutes * 60 +
    seconds, a missing component counting as 0), so that "PTabc" decodes
    to 0; its only failure there is the [ValueError] of [int] when a
    component of that duration has more than 4300 digits. *)
Theorem iso_to_seconds_malformed (iso : string) (H : ~ well_formed iso) :
  (startswith iso "PT" = false /\ iso_to_seconds iso = Raise AttributeError)
  \/ (startswith iso "PT" = true /\
      exists (h m s : option string) (rest : string),
        iso = render h m s ++ rest /\ rest <> "" /\
        group_ok h = true /\ group_ok m = true /\ group_ok s = true /\
        (forall p r,
           well_formed p -> iso = p ++ r ->
           (String.length p <= String.length (render h m s))%nat) /\
        if within_limit h && within_limit m && within_limit s
        then iso_to_seconds iso = Ok (seconds_of h m s)
        else exists msg, iso_to_seconds iso = Raise (ValueError msg)).
Proof.
  destruct (iso_to_seconds_cases iso) as [L|[E _]]; [now left | right].
  split; [exact E|].
  destruct (re_match_startswith _ E) as [mo Hmo].
  pose proof (re_match_inv _ Hmo) as (Hiso & H1 & H2 & H3).
  exists (group1 mo), (group2 mo), (group3 mo), (unmatched mo).
  repeat split; try assumption.
  - intros Hnil. apply H. rewrite Hiso, Hnil, append_nil_r.
    now exists (group1 mo), (group2 mo), (group3 mo).
  - intros p r (h & m & s & Hh & Hm & Hs & ->) Hp.
    exact (@re_match_longest _ _ _ _ _ _ Hmo Hh Hm Hs Hp).
  - pose proof (iso_to_seconds_matched _ Hmo) as Hrun.
    destruct (within_limit (group1 mo) && within_limit (group2 mo)
              && within_limit (group3 mo)); [apply Hrun | exact Hrun].
Qed.

Lemma iso_to_seconds_malformed_witness :
  (startswith "PTabc" "PT" = false /\
   iso_to_seconds "PTabc" = Raise AttributeError)
  \/ (startswith "PTabc" "PT" = true /\
      exists (h m s : option string) (rest : string),
        "PTabc" = render h m s ++ rest /\ rest <> "" /\
        group_ok h = true /\ group_ok m = true /\ group_ok s = true /\
        (forall p r,
           well_formed p -> "PTabc" = p ++ r ->
           (String.length p <= String.length (render h m s))%nat) /\
        if within_limit h && within_limit m && within_limit s
        then iso_to_seconds "PTabc" = Ok (seconds_of h m s)
        else exists msg, iso_to_seconds "PTabc" = Raise (ValueError msg)).
Proof. exact (iso_to_seconds_malformed not_well_formed_PTabc). Defined.

End DurationFacts.

(* ------------------------------------------------------------------ *)
(** ** The KPI aggregator *)

Module KpiFacts.

Import Kpi Calendar.
Open Scope Z_scope.

Example epoch : utc 1970 1 1 0 0 0 = 0.
Proof. reflexivity. Qed.

Example feb_2024 : utc 2024 2 1 0 0 0 = 1706745600 * 1000000.
Proof. reflexivity. Qed.

Example year_one : utc 1 1 1 0 0 0 = Fetch.datetime_min.
Proof. reflexivity. Qed.

Lemma in_range_spec (ts : option Video.instant) (start end_ : Z) :
  in_range ts start end_ = true <->
  exists t, ts = Some t /\ start <= t < end_.
Proof.
  unfold in_range. destruct ts as [t|].
  - rewrite andb_true_iff, Z.leb_le, Z.ltb_lt. split.
    + intros H. now exists t.
    + now intros (t' & [= <-] & H).
  - split; [discriminate | now intros (t & H & _)].
Qed.

Lemma items_in_range_In (videos : list Video.t) (start end_ : Z)
  (v : Video.t) :
  In v (items_in_range videos start end_) <->
  In v videos /\ in_range (Video.publishedAt v) start end_ = true.
Proof. unfold items_in_range. apply filter_In. Qed.

(** The two filters on the duration take complementary parts. *)
Lemma duration_split (thr : Z) (l : list Video.t) :
  (List.length (videos_only thr l) + List.length (shorts_only thr l)
   = List.length l)%nat.
Proof.
  unfold videos_only, shorts_only.
  induction l as [|v l IH]; simpl; [reflexivity|].
  destruct (Z.ltb_spec thr (Video.duration_seconds v));
    destruct (Z.leb_spec (Video.duration_seconds v) thr);
    simpl; lia.
Qed.

Section ArgMax.

Context {A : Type} (f : A -> Z).

Lemma max_from_In (pool : list A) (best : A) :
  In (max_from f best pool) (best :: pool).
Proof.
  revert best; induction pool as [|x pool IH]; intros best; simpl.
  - now left.
  - destruct (f best <? f x).
    + right. apply IH.
    + destruct (IH best) as [H|H]; [now left | now right; right].
Qed.

(** The maximum cuts the pool in two: strictly smaller keys before it,
    keys that are no greater after it. *)
Lemma max_from_first (pool : list A) (best : A) :
  exists pre post,
    best :: pool = pre ++ max_from f best pool :: post /\
    (forall x, In x pre -> f x < f (max_from f best pool)) /\
    (forall x, In x post -> f x <= f (max_from f best pool)).
Proof.
  revert best; induction pool as [|x pool IH]; intros best; simpl.
  - exists [], []. repeat split; intros y [].
  - destruct (Z.ltb_spec (f best) (f x)) as [Hlt|Hge].
    + destruct (IH x) as (pre & post & E & Hpre & Hpost).
      assert (Hx : f x <= f (max_from f x pool)).
      { assert (Hin : In x (pre ++ max_from f x pool :: post))
          by (rewrite <- E; now left).
        apply in_app_or in Hin as [Hin|[Hin|Hin]];
          [apply Hpre in Hin; lia | rewrite Hin; lia | now apply Hpost]. }
      exists (best :: pre), post. repeat split.
      * simpl. now rewrite E.
      * intros y [Hy|Hy]; [subst y; lia | now apply Hpre].
      * exact Hpost.
    + destruct (IH best) as (pre & post & E & Hpre & Hpost).
      destruct pre as [|b pre]; simpl in E.
      * injection E as Eb Epool.
        exists [], (x :: post). repeat split.
        -- simpl. now rewrite <- Eb, Epool.
        -- intros y [].
        -- intros y [Hy|Hy]; [subst y; rewrite <- Eb; lia | now apply Hpost].
      * injection E as Eb Epool.
        assert (Hb : f best < f (max_from f best pool))
          by (apply Hpre; left; now symmetry).
        exists (best :: x :: pre), post. repeat split.
        -- simpl. do 2 f_equal. exact Epool.
        -- intros y [Hy|[Hy|Hy]]; [subst y; lia | subst y; lia |].
           apply Hpre. now right.
        -- exact Hpost.
Qed.

Lemma top_by_None (pool : list A) : top_by f pool = None <-> pool = [].
Proof. destruct pool; simpl; split; congruence. Qed.

Lemma top_by_In (pool : list A) (v : A) :
  top_by f pool = Some v -> In v pool.
Proof.
  destruct pool as [|x pool]; simpl; [discriminate|].
  intros [= <-]. apply max_from_In.
Qed.

Lemma top_by_first (pool : list A) (v : A) :
  top_by f pool = Some v ->
  exists pre post,
    pool = pre ++ v :: post /\
    (forall x, In x pre -> f x < f v) /\
    (forall x, In x post -> f x <= f v).
Proof.
  destruct pool as [|x pool]; simpl; [discriminate|].
  intros [= <-]. apply max_from_first.
Qed.

End ArgMax.

(** C3: the aggregator keeps exactly the videos whose [publishedAt] is
    defined and lies in the half-open interval from [start] to [end]: a
    video published exactly at [end] is left out, a video without
    [publishedAt] is never kept, and for the window from 2024-01-01T00:00Z
    to 2024-02-01T00:00Z a video published at 2024-02-01T00:00Z is left out
    while one published at 2024-01-31T23:59:59Z is kept. *)
Theorem compute_kpis_half_open :
  (forall videos start end_ thr v,
     In v (items (compute_kpis videos start end_ thr)) <->
     In v videos /\
     exists t, Video.publishedAt v = Some t /\ start <= t < end_) /\
  (forall videos start end_ thr v,
     Video.publishedAt v = Some end_ ->
     ~ In v (items (compute_kpis videos start end_ thr))) /\
  (forall videos start end_ thr v,
     Video.publishedAt v = None ->
     ~ In v (items (compute_kpis videos start end_ thr))) /\
  (forall a b thr,
     Video.publishedAt a = Some (utc 2024 2 1 0 0 0) ->
     Video.publishedAt b = Some (utc 2024 1 31 23 59 59) ->
     items (compute_kpis [a; b] (utc 2024 1 1 0 0 0) (utc 2024 2 1 0 0 0) thr)
     = [b]).
Proof.
  assert (Hiff : forall videos start end_ thr v,
     In v (items (compute_kpis videos start end_ thr)) <->
     In v videos /\
     exists t, Video.publishedAt v = Some t /\ start <= t < end_).
  { intros. simpl. rewrite items_in_range_In, in_range_spec. reflexivity. }
  split; [exact Hiff|]. split; [|split].
  - intros videos start end_ thr v Hv Hin.
    apply Hiff in Hin as (_ & t & Ht & Hlt).
    rewrite Hv in Ht. injection Ht as <-. lia.
  - intros videos start end_ thr v Hv Hin.
    apply Hiff in Hin as (_ & t & Ht & _). congruence.
  - intros a b thr Ha Hb. simpl. unfold items_in_range. simpl.
    rewrite Ha, Hb. reflexivity.
Qed.

Lemma compute_kpis_half_open_witness :
  let a := Video.Make "a" "A" "ua" (Some (utc 2024 2 1 0 0 0)) 30 1 1 None in
  let b :=
    Video.Make "b" "B" "ub" (Some (utc 2024 1 31 23 59 59)) 30 1 1 None in
  items (compute_kpis [a; b] (utc 2024 1 1 0 0 0) (utc 2024 2 1 0 0 0) 60)
  = [b].
Proof.
  intros a b.
  apply (proj2 (proj2 (proj2 compute_kpis_half_open)) a b 60); reflexivity.
Defined.

(** C5: the split into long-form and short-form records is a bisection of
    the records in range: each of them is in exactly one part, it is
    short-form exactly when its duration is at most the threshold, and the
    two counts add up to the total; at threshold 60 a duration of 60 is
    short-form and a duration of 61 is long-form. *)
Theorem compute_kpis_bisection :
  (forall videos start end_ thr,
     let k := compute_kpis videos start end_ thr in
     count_shorts k = Z.of_nat (List.length (shorts_only thr (items k))) /\
     count_videos k = Z.of_nat (List.length (videos_only thr (items k))) /\
     count_total k = Z.of_nat (List.length (items k)) /\
     count_videos k + count_shorts k = count_total k) /\
  (forall videos start end_ thr v,
     let k := compute_kpis videos start end_ thr in
     In v (items k) ->
     (In v (shorts_only thr (items k)) <-> Video.duration_seconds v <= thr) /\
     (In v (videos_only thr (items k)) <-> thr < Video.duration_seconds v) /\
     (In v (shorts_only thr (items k)) \/ In v (videos_only thr (items k))) /\
     ~ (In v (shorts_only thr (items k)) /\ In v (videos_only thr (items k))))
  /\
  (forall videos start end_ v,
     let k := compute_kpis videos start end_ 60 in
     In v (items k) ->
     (Video.duration_seconds v = 60 ->
      In v (shorts_only 60 (items k)) /\ ~ In v (videos_only 60 (items k))) /\
     (Video.duration_seconds v = 61 ->
      In v (videos_only 60 (items k)) /\ ~ In v (shorts_only 60 (items k)))).
Proof.
  assert (Hs : forall thr l v, In v l ->
            (In v (shorts_only thr l) <-> Video.duration_seconds v <= thr)).
  { intros thr l v Hin. unfold shorts_only.
    rewrite filter_In, Z.leb_le. tauto. }
  assert (Hl : forall thr l v, In v l ->
            (In v (videos_only thr l) <-> thr < Video.duration_seconds v)).
  { intros thr l v Hin. unfold videos_only.
    rewrite filter_In, Z.ltb_lt. tauto. }
  split; [|split].
  - intros videos start end_ thr k. repeat split.
    subst k. simpl.
    pose proof (duration_split thr (items_in_range videos start end_)). lia.
  - intros videos start end_ thr v k Hin.
    pose proof (Hs thr _ _ Hin) as Hs'. pose proof (Hl thr _ _ Hin) as Hl'.
    repeat split; try apply Hs'; try apply Hl'.
    + destruct (Z.le_gt_cases (Video.duration_seconds v) thr);
        [left; now apply Hs' | right; apply Hl'; lia].
    + intros [H1 H2]. apply Hs' in H1. apply Hl' in H2. lia.
  - intros videos start end_ v k Hin.
    pose proof (Hs 60 _ _ Hin) as Hs'. pose proof (Hl 60 _ _ Hin) as Hl'.
    split; intros Hd; (split; [|intros H]);
      try apply Hs'; try apply Hl'; try lia;
      try apply Hs' in H; try apply Hl' in H; lia.
Qed.

Lemma compute_kpis_bisection_witness :
  let a := Video.Make "a" "A" "ua" (Some 5) 60 1 1 None in
  let b := Video.Make "b" "B" "ub" (Some 6) 61 1 1 None in
  let k := compute_kpis [a; b] 0 10 60 in
  (In a (shorts_only 60 (items k)) /\ ~ In a (videos_only 60 (items k))) /\
  (In b (videos_only 60 (items k)) /\ ~ In b (shorts_only 60 (items k))).
Proof.
  intros a b k. split.
  - apply (proj2 (proj2 compute_kpis_bisection) [a; b] 0 10 a);
      [simpl; now left | reflexivity].
  - apply (proj2 (proj2 compute_kpis_bisection) [a; b] 0 10 b);
      [simpl; now right; left | reflexivity].
Defined.

(** C6: [most_liked] is a record of the in-range set with the greatest
    [likes] and [most_commented] one with the greatest [comments]; each is
    absent exactly when the in-range set is empty; among records tied for
    the maximum the one that comes first in input order is returned, so for
    likes 5, 10, 10, 3 it is the first of the two records with 10 likes. *)
Theorem compute_kpis_arg_max :
  (forall videos start end_ thr,
     let k := compute_kpis videos start end_ thr in
     (most_liked k = None <-> items k = []) /\
     (most_commented k = None <-> items k = [])) /\
  (forall videos start end_ thr v,
     let k := compute_kpis videos start end_ thr in
     most_liked k = Some v ->
     exists pre post,
       items k = pre ++ v :: post /\
       (forall x, In x pre -> Video.likes x < Video.likes v) /\
       (forall x, In x post -> Video.likes x <= Video.likes v)) /\
  (forall videos start end_ thr v,
     let k := compute_kpis videos start end_ thr in
     most_commented k = Some v ->
     exists pre post,
       items k = pre ++ v :: post /\
       (forall x, In x pre -> Video.comments x < Video.comments v) /\
       (forall x, In x post -> Video.comments x <= Video.comments v)) /\
  (forall a b c d start end_ thr,
     items (compute_kpis [a; b; c; d] start end_ thr) = [a; b; c; d] ->
     Video.likes a = 5 -> Video.likes b = 10 ->
     Video.likes c = 10 -> Video.likes d = 3 ->
     most_liked (compute_kpis [a; b; c; d] start end_ thr) = Some b).
Proof.
  split; [|split; [|split]].
  - intros videos start end_ thr k. subst k. simpl.
    split; apply top_by_None.
  - intros videos start end_ thr v k. subst k. simpl. apply top_by_first.
  - intros videos start end_ thr v k. subst k. simpl. apply top_by_first.
  - intros a b c d start end_ thr Hitems Ha Hb Hc Hd. simpl in *.
    rewrite Hitems. simpl. rewrite Ha, Hb, Hc, Hd. reflexivity.
Qed.

Lemma compute_kpis_arg_max_witness :
  let a := Video.Make "a" "A" "ua" (Some 1) 10 5 0 None in
  let b := Video.Make "b" "B" "ub" (Some 2) 10 10 0 None in
  let c := Video.Make "c" "C" "uc" (Some 3) 10 10 0 None in
  let d := Video.Make "d" "D" "ud" (Some 4) 10 3 0 None in
  most_liked (compute_kpis [a; b; c; d] 0 10 60) = Some b.
Proof.
  intros a b c d.
  apply (proj2 (proj2 (proj2 compute_kpis_arg_max)) a b c d 0 10 60);
    reflexivity.
Defined.

(** C10: whenever some record is in range, [most_liked] and
    [most_commented] are present and are records of the in-range set, hence
    records of the input list published inside the window. *)
Theorem compute_kpis_top_in_range (videos : list Video.t)
  (start end_ thr : Z) :
  let k := compute_kpis videos start end_ thr in
  items k <> [] ->
  exists vl vc,
    most_liked k = Some vl /\ most_commented k = Some vc /\
    In vl (items k) /\ In vc (items k) /\
    In vl videos /\ In vc videos /\
    in_range (Video.publishedAt vl) start end_ = true /\
    in_range (Video.publishedAt vc) start end_ = true.
Proof.
  intros k Hne. subst k. simpl in *.
  destruct (top_by Video.likes (items_in_range videos start end_))
    as [vl|] eqn:El; [|now apply top_by_None in El].
  destruct (top_by Video.comments (items_in_range videos start end_))
    as [vc|] eqn:Ec; [|now apply top_by_None in Ec].
  apply top_by_In in El, Ec.
  pose proof (proj1 (items_in_range_In _ _ _ _) El) as [? ?].
  pose proof (proj1 (items_in_range_In _ _ _ _) Ec) as [? ?].
  exists vl, vc. repeat split; assumption.
Qed.

Lemma compute_kpis_top_in_range_witness :
  let a := Video.Make "a" "A" "ua" (Some 1) 10 5 7 None in
  let b := Video.Make "b" "B" "ub" None 10 99 99 None in
  let k := compute_kpis [a; b] 0 10 60 in
  exists vl vc,
    most_liked k = Some vl /\ most_commented k = Some vc /\
    In vl (items k) /\ In vc (items k) /\
    In vl [a; b] /\ In vc [a; b] /\
    in_range (Video.publishedAt vl) 0 10 = true /\
    in_range (Video.publishedAt vc) 0 10 = true.
Proof.
  intros a b.
  apply (@compute_kpis_top_in_range [a; b] 0 10 60). discriminate.
Defined.

End KpiFacts.

(* ------------------------------------------------------------------ *)
(** ** The channel resolver *)

Module ResolverFacts.

Import Text TextFacts Net Resolver ChannelShape.
Open Scope string_scope.

Lemma rev_acc_twice (s a b : string) :
  rev_acc (rev_acc s a) b = rev_acc a (s ++ b).
Proof.
  revert a b; induction s as [|c s IH]; intros a b; simpl;
    [reflexivity | now rewrite IH].
Qed.

Lemma rev_involutive (s : string) : rev (rev s) = s.
Proof. unfold rev. rewrite rev_acc_twice. simpl. apply append_nil_r. Qed.

Lemma rev_acc_all (p : ascii -> bool) (s acc : string) :
  all p s = true -> all p acc = true -> all p (rev_acc s acc) = true.
Proof.
  revert acc; induction s as [|c s IH]; intros acc Hs Hacc; simpl in *;
    [exact Hacc|].
  apply andb_true_iff in Hs as [Hc Hs]. apply IH; [exact Hs|].
  simpl. now rewrite Hc.
Qed.

Lemma drop_while_none (p q : ascii -> bool) (s : string) :
  (forall c, q c = true -> p c = false) ->
  all q s = true -> drop_while p s = s.
Proof.
  intros Hpq Hs. destruct s as [|c s]; simpl in *; [reflexivity|].
  apply andb_true_iff in Hs as [Hc _]. now rewrite (Hpq c Hc).
Qed.

Lemma drop_while_all (p : ascii -> bool) (s : string) :
  all p s = true -> drop_while p s = "".
Proof.
  induction s as [|c s IH]; simpl; [reflexivity|].
  intros H. apply andb_true_iff in H as [Hc Hs]. now rewrite Hc, IH.
Qed.

(** Stripping leaves a text without whitespace as it is. *)
Lemma strip_none (q : ascii -> bool) (s : string) :
  (forall c, q c = true -> is_space c = false) ->
  all q s = true -> strip s = s.
Proof.
  intros Hq Hs. unfold strip, lstrip, rstrip.
  rewrite (drop_while_none _ q s Hq Hs).
  rewrite (drop_while_none _ q (rev s) Hq).
  - apply rev_involutive.
  - unfold rev. now apply rev_acc_all.
Qed.

Lemma strip_blank (s : string) : blank s = true -> strip s = "".
Proof.
  intros H. unfold strip, lstrip. now rewrite (drop_while_all _ _ H).
Qed.

Lemma id_char_not_space (c : ascii) :
  is_id_char c = true -> is_space c = false.
Proof.
  destruct c as [b0 b1 b2 b3 b4 b5 b6 b7].
  destruct b0, b1, b2, b3, b4, b5, b6, b7;
    vm_compute; intros H; first [reflexivity | discriminate H].
Qed.

Lemma take_spec (n : nat) (t r : string) :
  String.length t = n -> take n (t ++ r) = Some t.
Proof.
  revert t; induction n as [|n IH]; intros t Hn.
  - destruct t; [reflexivity | discriminate].
  - destruct t as [|c t]; [discriminate|]. simpl.
    injection Hn as Hn. now rewrite (IH t Hn).
Qed.

Lemma substring_whole (s : string) : substring 0 (String.length s) s = s.
Proof. induction s as [|c s IH]; simpl; [reflexivity | now rewrite IH]. Qed.

Lemma take_inv (n : nat) (s t : string) :
  take n s = Some t ->
  s = t ++ substring n (String.length s - n) s /\ String.length t = n.
Proof.
  revert s t; induction n as [|n IH]; intros s t.
  - simpl. destruct s; intros [= <-]; simpl; [now split|].
    now rewrite substring_whole.
  - destruct s as [|c s]; [discriminate|]. simpl.
    destruct (take n s) as [t'|] eqn:E; [|discriminate].
    intros [= <-]. destruct (IH _ _ E) as [Hs Hlen].
    simpl. split; [now rewrite <- Hs | now rewrite Hlen].
Qed.

Lemma substring_all (t : string) :
  substring (String.length t) 0 t = "".
Proof. induction t as [|c t IH]; simpl; [reflexivity | exact IH]. Qed.

(** The regex of the resolver accepts the canonical shape. *)
Lemma canonical_is_channel_id (s : string) :
  canonical s -> is_channel_id s = true.
Proof.
  intros (t & -> & Hlen & Hall).
  unfold is_channel_id, channel_id_at.
  rewrite (proj2 (strip_prefix_spec "UC" ("UC" ++ t) t) eq_refl).
  pose proof (take_spec t "" Hlen) as Ht. rewrite append_nil_r in Ht.
  rewrite Ht. unfold is_id_char. rewrite Hall.
  rewrite Hlen, Nat.sub_diag, <- Hlen, substring_all. reflexivity.
Qed.

(** The canonical shape is what the regex of the resolver accepts. *)
Lemma is_channel_id_canonical (s : string) :
  is_channel_id s = true <-> canonical s.
Proof.
  split; [|apply canonical_is_channel_id].
  unfold is_channel_id, channel_id_at.
  destruct (strip_prefix "UC" s) as [r|] eqn:Es; [|discriminate].
  apply strip_prefix_spec in Es.
  destruct (take 22 r) as [t|] eqn:Et; [|discriminate].
  destruct (all is_id_char t) eqn:Hall; [|discriminate].
  apply take_inv in Et as [Hr Hlen].
  destruct (substring 22 (String.length r - 22) r); [|discriminate].
  intros _. rewrite append_nil_r in Hr. subst r. now exists t.
Qed.

Lemma canonical_strip (s : string) : canonical s -> strip s = s.
Proof.
  intros (t & -> & _ & Hall).
  apply (strip_none is_id_char); [exact id_char_not_space|].
  simpl. exact Hall.
Qed.

Lemma canonical_not_empty (s : string) : canonical s -> s <> "".
Proof. intros (t & -> & _) H. discriminate H. Qed.

Example resolve_channel_url :
  run (resolve_to_channel_id Sample.api "k"
         "  https://www.youtube.com/channel/UC_x5XG1OV2P6uZZ5FSM9Ttw/videos ")
  = Some (Ok "UC_x5XG1OV2P6uZZ5FSM9Ttw", []).
Proof. reflexivity. Qed.

Example resolve_handle_unknown :
  run (resolve_to_channel_id Sample.api "k" "@marvel")
  = Some (Raise (ValueError "Handle not found: @marvel"),
          [ChannelsForHandle "k" "@marvel"]).
Proof. reflexivity. Qed.

Example resolve_custom_url :
  run (resolve_to_channel_id Sample.api "k" "https://youtube.com/c/Some.Name/")
  = Some (Raise (ValueError "No channel found for query: Some.Name"),
          [SearchChannel "k" "Some.Name"]).
Proof. reflexivity. Qed.

Example resolve_last_piece :
  run (resolve_to_channel_id Sample.api "k" "https://youtube.com/a/b//")
  = Some (Raise (ValueError "No channel found for query: b"),
          [SearchChannel "k" "b"]).
Proof. reflexivity. Qed.

(** C4: on every input of the canonical channel-ID shape the resolver
    returns the input unchanged, and it performs no network call: the log of
    requests stays empty. *)
Theorem resolve_canonical_unchanged (api : remote) (api_key s : string)
  (H : canonical s) :
  run (resolve_to_channel_id api api_key s) = Some (Ok s, []).
Proof.
  unfold run, resolve_to_channel_id.
  rewrite (canonical_strip H), (canonical_is_channel_id H).
  destruct (String.eqb_spec s "") as [E|_];
    [now apply canonical_not_empty in E | reflexivity].
Qed.

Lemma resolve_canonical_unchanged_witness :
  run (resolve_to_channel_id Sample.api "k" "UC_x5XG1OV2P6uZZ5FSM9Ttw")
  = Some (Ok "UC_x5XG1OV2P6uZZ5FSM9Ttw", []).
Proof.
  apply (@resolve_canonical_unchanged Sample.api "k").
  exists "_x5XG1OV2P6uZZ5FSM9Ttw". repeat split; reflexivity.
Defined.

(** C8: on the empty string and on a string of whitespace only the resolver
    fails, raising its error for an empty input ([ValueError] is the error
    type of the resolver), and it performs no network call. *)
Theorem resolve_blank_fails (api : remote) (api_key s : string)
  (H : blank s = true) :
  run (resolve_to_channel_id api api_key s)
  = Some (Raise (ValueError "Empty channel input."), []).
Proof.
  unfold run, resolve_to_channel_id. now rewrite (strip_blank _ H).
Qed.

Lemma resolve_blank_fails_witness :
  run (resolve_to_channel_id Sample.api "k" "")
  = Some (Raise (ValueError "Empty channel input."), []) /\
  run (resolve_to_channel_id Sample.api "k"
         (String " " (String "009" (String "010" " "))))
  = Some (Raise (ValueError "Empty channel input."), []).
Proof.
  split.
  - apply (@resolve_blank_fails Sample.api "k" ""). reflexivity.
  - apply (@resolve_blank_fails Sample.api "k"). reflexivity.
Defined.

End ResolverFacts.

(* ------------------------------------------------------------------ *)
(** ** The fetch pipeline *)

Module FetchFacts.

Import Net Fetch Served.
Open Scope Z_scope.
Open Scope list_scope.

Section Lists.

Context {A : Type}.

Lemma firstn_exact (a l : list A) (n : nat) :
  List.length a = n -> firstn n (a ++ l) = a.
Proof.
  intros <-. induction a as [|x a IH]; simpl.
  - now destruct l.
  - now rewrite IH.
Qed.

Lemma skipn_exact (a l : list A) (n : nat) :
  List.length a = n -> skipn n (a ++ l) = l.
Proof. intros <-. induction a as [|x a IH]; simpl; [reflexivity | exact IH]. Qed.

(** A list of at least 120 elements begins with 50, 50 and 20 elements. *)
Lemma split_120 (L : list A) :
  (120 <= List.length L)%nat ->
  exists a b c r,
    L = (a ++ b ++ c ++ r)%list /\
    List.length a = 50%nat /\ List.length b = 50%nat /\
    List.length c = 20%nat.
Proof.
  intros H.
  exists (firstn 50 L), (firstn 50 (skipn 50 L)),
         (firstn 20 (skipn 100 L)), (skipn 120 L).
  repeat split.
  - rewrite <- (firstn_skipn 50 L) at 1. f_equal.
    rewrite <- (firstn_skipn 50 (skipn 50 L)) at 1. f_equal.
    rewrite skipn_skipn. simpl.
    rewrite <- (firstn_skipn 20 (skipn 100 L)) at 1. f_equal.
    now rewrite skipn_skipn.
  - rewrite length_firstn. lia.
  - rewrite length_firstn, length_skipn. lia.
  - rewrite length_firstn, length_skipn. lia.
Qed.

Lemma chunk_from_full (fuel n : nat) (a l : list A) :
  List.length a = S n ->
  chunk_from (S fuel) (a ++ l) (S n) = a :: chunk_from fuel l (S n).
Proof.
  intros Ha. destruct a as [|x a]; [discriminate|].
  change (chunk_from (S fuel) ((x :: a) ++ l) (S n))
    with (firstn (S n) ((x :: a) ++ l)
          :: chunk_from fuel (skipn (S n) ((x :: a) ++ l)) (S n)).
  now rewrite (firstn_exact _ l Ha), (skipn_exact _ l Ha).
Qed.

Lemma chunk_from_last (fuel n : nat) (c : list A) :
  (0 < List.length c <= n)%nat -> chunk_from (S fuel) c n = [c].
Proof.
  intros [H0 Hn]. destruct c as [|x c]; [simpl in H0; lia|].
  change (chunk_from (S fuel) (x :: c) n)
    with (firstn n (x :: c) :: chunk_from fuel (skipn n (x :: c)) n).
  rewrite firstn_all2 by exact Hn. rewrite skipn_all2 by exact Hn.
  now destruct fuel.
Qed.

(** 120 elements go in three batches: 50, 50 and 20. *)
Lemma chunk_120 (a b c : list A) :
  List.length a = 50%nat -> List.length b = 50%nat ->
  List.length c = 20%nat ->
  chunk (a ++ b ++ c) 50 = [a; b; c].
Proof.
  intros Ha Hb Hc. unfold chunk. rewrite !length_app, Ha, Hb, Hc.
  change (50 + (50 + 20))%nat with (S (S (S 117))).
  rewrite !chunk_from_full by assumption.
  rewrite chunk_from_last by lia. reflexivity.
Qed.

End Lists.

Lemma map_result_length {A B} (f : A -> result B) (l : list A)
  (ys : list B) :
  map_result f l = Ok ys -> List.length ys = List.length l.
Proof.
  revert ys; induction l as [|x l IH]; intros ys; simpl.
  - now intros [= <-].
  - destruct (f x) as [y|e]; simpl; [|discriminate].
    destruct (map_result f l) as [ys'|e]; simpl; [|discriminate].
    intros [= <-]. simpl. now rewrite (IH ys').
Qed.

Lemma insert_desc_length (x : Video.t) (l : list Video.t) :
  List.length (insert_desc x l) = S (List.length l).
Proof.
  induction l as [|y l IH]; simpl; [reflexivity|].
  destruct (sort_key x <? sort_key y); simpl; [now rewrite IH | reflexivity].
Qed.

Lemma sort_newest_first_length (l : list Video.t) :
  List.length (sort_newest_first l) = List.length l.
Proof.
  induction l as [|x l IH]; simpl; [reflexivity|].
  now rewrite insert_desc_length, IH.
Qed.

Example chunk_5_by_2 :
  chunk [1; 2; 3; 4; 5] 2 = [[1; 2]; [3; 4]; [5]].
Proof. reflexivity. Qed.

Example slice_to_negative : slice_to (-1) [1; 2; 3] = [1; 2].
Proof. reflexivity. Qed.

Example count_field_absent : count_field None = Ok 0.
Proof. reflexivity. Qed.

Example count_field_number : count_field (Some "0012"%string) = Ok 12.
Proof. reflexivity. Qed.

Example count_field_text : count_field (Some "n/a"%string) = Ok 0.
Proof. reflexivity. Qed.

Example count_field_superscript :
  count_field (Some (String "1" (String "178" ""))) =
  Raise (ValueError "invalid literal for int() with base 10").
Proof. reflexivity. Qed.

Example sample_record :
  make_record Sample.dtparse (Sample.item_of "abc")
  = Ok (Video.Make "abc" "title" "https://www.youtube.com/watch?v=abc"
          (Some (Calendar.utc 2024 1 15 0 0 0)) 65 3 0 None).
Proof. reflexivity. Qed.

Section Steps.

Variable api : remote.
Variable dtparse : string -> option Video.instant.

(** One turn of the pagination loop. *)
Lemma pages_step (fuel : nat) (key pl : string) (max_items : Z)
  (ids : list string) (token : option string)
  (page : list string) (next : option string) (l : log) :
  playlistItems api key pl 50 token = (200, (page, next)) ->
  pages api (S fuel) key pl max_items ids token l
  = if falsy next || (max_items <=? Z.of_nat (List.length (ids ++ page)))
    then Some (Ok (ids ++ page)%list,
               (l ++ [PlaylistItems key pl 50 token])%list)
    else pages api fuel key pl max_items (ids ++ page) next
           (l ++ [PlaylistItems key pl 50 token]).
Proof.
  intros H. simpl. unfold bind, get. rewrite H. simpl.
  destruct (falsy next || (max_items <=? Z.of_nat (List.length (ids ++ page))));
    reflexivity.
Qed.

(** One turn of the loop over the batches. *)
Lemma details_step (key : string) (group : list string)
  (groups : list (list string)) (out : list Video.t)
  (items : list video_item) (recs : list Video.t) (l : log) :
  videos api key (String.concat "," group) = (200, items) ->
  map_result (make_record dtparse) items = Ok recs ->
  details api dtparse key (group :: groups) out l
  = details api dtparse key groups (out ++ recs)
      (l ++ [Videos key (String.concat "," group)]).
Proof.
  intros Hv Hr. simpl. unfold bind, get, lift. rewrite Hv. simpl.
  rewrite Hr. reflexivity.
Qed.

Lemma bind_ok {A B} (m : M A) (f : A -> M B) (l l' : log) (a : A) :
  m l = Some (Ok a, l') -> bind m f l = f a l'.
Proof. intros H. unfold bind. now rewrite H. Qed.

Lemma fetch_video_details_chunks (key : string) (ids : list string) :
  fetch_video_details api dtparse key ids
  = details api dtparse key (chunk ids 50) [].
Proof. destruct ids; reflexivity. Qed.

Section First120.

Variables (key pl : string) (tok : nat -> string).
Variables a b c r : list string.
Hypothesis Ha : List.length a = 50%nat.
Hypothesis Hb : List.length b = 50%nat.
Hypothesis Hc : List.length c = 20%nat.

Lemma first_120 : firstn 120 (a ++ b ++ c ++ r) = a ++ b ++ c.
Proof.
  replace (a ++ b ++ c ++ r) with ((a ++ b ++ c) ++ r)
    by now rewrite <- !app_assoc.
  apply firstn_exact. rewrite !length_app. lia.
Qed.

Lemma skip_50 : skipn 50 (a ++ b ++ c ++ r) = b ++ c ++ r.
Proof. now apply skipn_exact. Qed.

Lemma skip_100 : skipn 100 (a ++ b ++ c ++ r) = c ++ r.
Proof.
  replace (a ++ b ++ c ++ r) with ((a ++ b) ++ c ++ r)
    by now rewrite <- !app_assoc.
  apply skipn_exact. rewrite length_app. lia.
Qed.

Hypothesis Hpages : serves_pages api key pl tok (a ++ b ++ c ++ r).

Lemma token_truthy (off : nat) : falsy (Some (tok off)) = false.
Proof.
  destruct Hpages as (Htok & _). simpl.
  destruct (String.eqb_spec (tok off) ""); [now destruct (Htok off) | easy].
Qed.

Lemma page_1 :
  playlistItems api key pl 50 None = (200, (a, Some (tok 50))).
Proof.
  destruct Hpages as (_ & H0 & _). rewrite H0. unfold page_of.
  change (skipn 0 (a ++ b ++ c ++ r)) with (a ++ b ++ c ++ r).
  rewrite (firstn_exact _ _ Ha).
  replace (0 + 50 <? List.length (a ++ b ++ c ++ r))%nat with true;
    [reflexivity|].
  symmetry. apply Nat.ltb_lt. rewrite !length_app. lia.
Qed.

Lemma page_2 :
  playlistItems api key pl 50 (Some (tok 50)) = (200, (b, Some (tok 100))).
Proof.
  destruct Hpages as (_ & _ & Hoff). rewrite Hoff by lia. unfold page_of.
  rewrite skip_50, (firstn_exact _ _ Hb).
  replace (50 + 50 <? List.length (a ++ b ++ c ++ r))%nat with true;
    [reflexivity|].
  symmetry. apply Nat.ltb_lt. rewrite !length_app. lia.
Qed.

Lemma page_3 :
  exists next,
    playlistItems api key pl 50 (Some (tok 100))
    = (200, (c ++ firstn 30 r, next)).
Proof.
  destruct Hpages as (_ & _ & Hoff). rewrite Hoff by lia. unfold page_of.
  rewrite skip_100, firstn_app, Hc, (firstn_all2 (n := 50) c) by lia.
  eexists. reflexivity.
Qed.

(** Three pages are fetched, and the first 120 IDs are kept. *)
Lemma list_upload_video_ids_120 (fuel : nat) (l : log) :
  (3 <= fuel)%nat ->
  list_upload_video_ids api fuel key pl 120 l
  = Some (Ok (a ++ b ++ c),
          l ++ [PlaylistItems key pl 50 None;
                PlaylistItems key pl 50 (Some (tok 50));
                PlaylistItems key pl 50 (Some (tok 100))]).
Proof.
  intros Hfuel.
  destruct fuel as [|[|[|fuel]]]; try lia.
  destruct page_3 as [next P3].
  unfold list_upload_video_ids.
  erewrite bind_ok.
  2:{ rewrite pages_step with (page := a) (next := Some (tok 50))
        by exact page_1.
      rewrite token_truthy, length_app, Ha. simpl "||".
      rewrite pages_step with (page := b) (next := Some (tok 100))
        by exact page_2.
      rewrite token_truthy, !length_app, Ha, Hb. simpl "||".
      rewrite pages_step with (page := c ++ firstn 30 r) (next := next)
        by exact P3.
      change (120 <=? 50) with false. change (120 <=? 100) with false.
      cbv iota.
      assert (E : (120 <=? Z.of_nat
                     (List.length ((([] ++ a) ++ b) ++ c ++ firstn 30 r)))
                  = true).
      { apply Z.leb_le. rewrite !length_app, Ha, Hb, Hc. simpl List.length.
        lia. }
      rewrite E, orb_true_r. reflexivity. }
  unfold ret, slice_to. simpl "<=?". cbv iota.
  change (Z.to_nat 120) with 120%nat.
  replace (([] ++ a) ++ b) with (a ++ b) by reflexivity.
  replace ((a ++ b) ++ c ++ firstn 30 r) with ((a ++ b ++ c) ++ firstn 30 r)
    by now rewrite <- !app_assoc.
  rewrite firstn_exact by (rewrite !length_app; lia).
  now rewrite <- !app_assoc.
Qed.

Variables ia ib ic : list video_item.
Variables ra rb rc : list Video.t.
Hypothesis Va : videos api key (String.concat "," a) = (200, ia).
Hypothesis Vb : videos api key (String.concat "," b) = (200, ib).
Hypothesis Vc : videos api key (String.concat "," c) = (200, ic).
Hypothesis Ra : map_result (make_record dtparse) ia = Ok ra.
Hypothesis Rb : map_result (make_record dtparse) ib = Ok rb.
Hypothesis Rc : map_result (make_record dtparse) ic = Ok rc.

(** Three batches are looked up, and every item returned gets its
    record. *)
Lemma fetch_video_details_three (l : log) :
  fetch_video_details api dtparse key (a ++ b ++ c) l
  = Some (Ok (ra ++ rb ++ rc),
          l ++ [Videos key (String.concat "," a);
                Videos key (String.concat "," b);
                Videos key (String.concat "," c)]).
Proof.
  rewrite fetch_video_details_chunks, chunk_120 by assumption.
  rewrite details_step with (items := ia) (recs := ra) by assumption.
  rewrite details_step with (items := ib) (recs := rb) by assumption.
  rewrite details_step with (items := ic) (recs := rc) by assumption.
  simpl. unfold ret. now rewrite <- !app_assoc.
Qed.

End First120.

End Steps.

Lemma get_uploads_playlist_id_ok (api : remote)
  (key channel_id uploads : string) (others : list string) (l : log) :
  channels_contentDetails api key channel_id = (200, uploads :: others) ->
  get_uploads_playlist_id api key channel_id l
  = Some (Ok uploads, l ++ [ChannelsContentDetails key channel_id]).
Proof.
  intros H. unfold get_uploads_playlist_id, bind, get. now rewrite H.
Qed.

Lemma unary_length (n : nat) : String.length (Sample.unary n) = n.
Proof. induction n as [|n IH]; simpl; [reflexivity | now rewrite IH]. Qed.

Lemma sample_serves_pages (key pl : string) :
  serves_pages Sample.api key pl Sample.token Sample.uploads.
Proof.
  repeat split.
  - intros off. discriminate.
  - intros off _. unfold Sample.api, Sample.offset_of, Sample.token. simpl.
    now rewrite unary_length, Nat.sub_0_r.
Qed.

Lemma sample_serves_videos (key : string) :
  serves_videos Sample.api Sample.dtparse key (firstn 120 Sample.uploads).
Proof.
  unfold serves_videos.
  assert (E : chunk (firstn 120 Sample.uploads) 50
              = [firstn 50 Sample.uploads;
                 firstn 50 (skipn 50 Sample.uploads);
                 firstn 20 (skipn 100 Sample.uploads)])
    by (vm_compute; reflexivity).
  rewrite E.
  repeat constructor; unfold answers_batch;
    eexists; eexists; (split; [|split]);
    try (vm_compute; reflexivity).
Qed.

Lemma lossy_serves_pages (key pl : string) :
  serves_pages Lossy.api key pl Sample.token Sample.uploads.
Proof.
  repeat split.
  - intros off. discriminate.
  - intros off _. unfold Lossy.api, Sample.api, Sample.offset_of,
      Sample.token. simpl.
    now rewrite unary_length, Nat.sub_0_r.
Qed.

(** C2, as the specification states it, fails: against an uploads
    container of 130 IDs served in pages of 50, by a remote side whose
    details lookup returns one item per batch, the fetch with
    [max_items = 120] makes its seven requests and returns 3 records, not
    120. *)
Lemma load_channel_data_120_lossy :
  (120 <= List.length Sample.uploads)%nat /\
  serves_pages Lossy.api "k" "UUsample" Sample.token Sample.uploads /\
  exists recs l,
    run (load_channel_data Lossy.api Sample.dtparse 3 "k" "UCsample" 120)
    = Some (Ok recs, l) /\
    List.length l = 7%nat /\ List.length recs = 3%nat /\
    List.length recs <> 120%nat.
Proof.
  split; [vm_compute; lia|]. split; [apply lossy_serves_pages|].
  eexists. eexists. split; [vm_compute; reflexivity|].
  repeat split. discriminate.
Qed.

(** C2, amended: for [max_items = 120] and an uploads container of at
    least 120 IDs served in pages of 50, the pipeline makes exactly three
    pagination calls, each asking for 50 items (the first page, then the
    pages named by the tokens of offsets 50 and 100), and keeps exactly the
    first 120 IDs; when the details lookups are answered with items that
    convert, it makes exactly three of them, for batches of 50, 50 and 20
    IDs, and returns one record per item they returned: 120 records when
    every requested ID got its item, fewer when the remote side left IDs
    out. *)
Theorem load_channel_data_120 (api : remote)
  (dtparse : string -> option Video.instant)
  (api_key channel_id uploads : string) (others : list string)
  (tok : nat -> string) (L : list string) (fuel : nat)
  (ia ib ic : list video_item) (ra rb rc : list Video.t)
  (Hmeta : channels_contentDetails api api_key channel_id
           = (200, uploads :: others))
  (Hlen : (120 <= List.length L)%nat)
  (Hfuel : (3 <= fuel)%nat)
  (Hpages : serves_pages api api_key uploads tok L)
  (Va : videos api api_key (String.concat "," (firstn 50 L)) = (200, ia))
  (Vb : videos api api_key (String.concat "," (firstn 50 (skipn 50 L)))
        = (200, ib))
  (Vc : videos api api_key (String.concat "," (firstn 20 (skipn 100 L)))
        = (200, ic))
  (Ra : map_result (make_record dtparse) ia = Ok ra)
  (Rb : map_result (make_record dtparse) ib = Ok rb)
  (Rc : map_result (make_record dtparse) ic = Ok rc) :
  let page_calls :=
    [PlaylistItems api_key uploads 50 None;
     PlaylistItems api_key uploads 50 (Some (tok 50%nat));
     PlaylistItems api_key uploads 50 (Some (tok 100%nat))] in
  let batches :=
    [firstn 50 L; firstn 50 (skipn 50 L); firstn 20 (skipn 100 L)] in
  run (list_upload_video_ids api fuel api_key uploads 120)
  = Some (Ok (firstn 120 L), page_calls) /\
  List.length (firstn 120 L) = 120%nat /\
  chunk (firstn 120 L) 50 = batches /\
  map (@List.length string) batches = [50; 50; 20]%nat /\
  exists recs,
    run (load_channel_data api dtparse fuel api_key channel_id 120)
    = Some (Ok recs,
            ChannelsContentDetails api_key channel_id
            :: page_calls
            ++ map (fun g => Videos api_key (String.concat "," g)) batches)
    /\ List.length recs
       = (List.length ia + List.length ib + List.length ic)%nat
    /\ (List.length ia = 50%nat -> List.length ib = 50%nat ->
        List.length ic = 20%nat -> List.length recs = 120%nat).
Proof.
  destruct (split_120 L Hlen) as (a & b & c & r & -> & Ha & Hb & Hc).
  intros page_calls batches. subst page_calls batches.
  rewrite first_120 in * by assumption.
  rewrite skip_50, skip_100 in * by assumption.
  rewrite !firstn_exact in * by assumption.
  pose proof (list_upload_video_ids_120 a b c r Ha Hb Hc Hpages) as Hids.
  split; [|split; [|split; [|split]]].
  - unfold run. now rewrite Hids.
  - rewrite !length_app. lia.
  - now apply chunk_120.
  - simpl. now rewrite Ha, Hb, Hc.
  - unfold run, load_channel_data.
    rewrite bind_ok with (1 := get_uploads_playlist_id_ok _ _ _ _ Hmeta).
    rewrite bind_ok with (1 := Hids _ _ Hfuel).
    erewrite bind_ok
      by (eapply fetch_video_details_three; eassumption).
    exists (sort_newest_first (ra ++ rb ++ rc)).
    assert (Hn : List.length (sort_newest_first (ra ++ rb ++ rc))
                 = (List.length ia + List.length ib + List.length ic)%nat).
    { rewrite sort_newest_first_length, !length_app.
      apply map_result_length in Ra, Rb, Rc. lia. }
    split; [reflexivity|]. split; [exact Hn | lia].
Qed.

Lemma load_channel_data_120_witness :
  exists recs,
    run (load_channel_data Sample.api Sample.dtparse 3 "k" "UCsample" 120)
    = Some (Ok recs,
            ChannelsContentDetails "k" "UCsample"
            :: [PlaylistItems "k" "UUsample" 50 None;
                PlaylistItems "k" "UUsample" 50 (Some (Sample.token 50));
                PlaylistItems "k" "UUsample" 50 (Some (Sample.token 100))]
            ++ map (fun g => Videos "k" (String.concat "," g))
                 [firstn 50 Sample.uploads;
                  firstn 50 (skipn 50 Sample.uploads);
                  firstn 20 (skipn 100 Sample.uploads)])
    /\ List.length recs = 120%nat.
Proof.
  edestruct (@load_channel_data_120 Sample.api Sample.dtparse "k" "UCsample"
               "UUsample" [] Sample.token Sample.uploads 3)
    as (_ & _ & _ & _ & recs & Hrun & _ & H120);
    [ reflexivity | vm_compute; lia | lia | apply sample_serves_pages
    | vm_compute; reflexivity .. | ].
  exists recs. split; [exact Hrun | apply H120; reflexivity].
Defined.

End FetchFacts.

(* ------------------------------------------------------------------ *)
(** ** Batching *)

Module ChunkFacts.

Import Fetch.
Open Scope list_scope.
Open Scope nat_scope.

Section Chunk.

Context {A : Type}.

Lemma chunk_from_nil (fuel n : nat) : chunk_from fuel (@nil A) n = [].
Proof. now destruct fuel. Qed.

Lemma chunk_from_cons (fuel n : nat) (x : A) (l : list A) :
  chunk_from (S fuel) (x :: l) n
  = firstn n (x :: l) :: chunk_from fuel (skipn n (x :: l)) n.
Proof. reflexivity. Qed.

Lemma chunk_from_concat (n fuel : nat) (l : list A) :
  0 < n -> List.length l <= fuel -> List.concat (chunk_from fuel l n) = l.
Proof.
  intros Hn. revert l; induction fuel as [|fuel IH]; intros l Hl.
  - destruct l; [reflexivity | simpl in Hl; lia].
  - destruct l as [|x l]; [reflexivity|].
    rewrite chunk_from_cons. cbn [List.concat].
    rewrite IH; [apply firstn_skipn|].
    rewrite length_skipn. cbn [List.length] in *. lia.
Qed.

(** The number of slices: the length divided by [n], rounded up. *)
Lemma slices_succ (n len : nat) :
  0 < n -> 0 < len -> (len + n - 1) / n = S ((len - n + n - 1) / n).
Proof.
  intros Hn Hlen. destruct (Nat.le_gt_cases n len) as [Hge|Hlt].
  - replace (len + n - 1) with ((len - n + n - 1) + 1 * n) by lia.
    rewrite Nat.div_add by lia. lia.
  - replace (len - n) with 0 by lia. simpl.
    rewrite (Nat.div_small (n - 1) n) by lia.
    symmetry. apply (Nat.div_unique _ _ 1 (len - 1)); lia.
Qed.

Lemma chunk_from_slices (n fuel : nat) (l : list A) :
  0 < n -> List.length l <= fuel ->
  chunk_from fuel l n
  = map (fun k => firstn n (skipn (k * n) l))
        (seq 0 ((List.length l + n - 1) / n)).
Proof.
  intros Hn. revert l; induction fuel as [|fuel IH]; intros l Hl.
  - destruct l; [|simpl in Hl; lia]. simpl.
    rewrite Nat.div_small by lia. reflexivity.
  - destruct l as [|x l].
    + rewrite chunk_from_nil. simpl. rewrite Nat.div_small by lia.
      reflexivity.
    + rewrite chunk_from_cons.
      rewrite (slices_succ (len := List.length (x :: l))) by (simpl; lia).
      cbn [seq map]. f_equal.
      rewrite <- seq_shift, map_map.
      rewrite IH by (rewrite length_skipn; cbn [List.length] in *; lia).
      rewrite length_skipn.
      apply map_ext. intros k. rewrite skipn_skipn.
      now replace (k * n + n) with (S k * n) by lia.
Qed.

End Chunk.

Lemma chunk_joined (A : Type) (lst : list A) (n : nat) :
  0 < n -> List.concat (chunk lst n) = lst.
Proof. intros Hn. unfold chunk. now apply chunk_from_concat. Qed.

Lemma chunk_count (A : Type) (lst : list A) (n : nat) :
  0 < n -> List.length (chunk lst n) = (List.length lst + n - 1) / n.
Proof.
  intros Hn. unfold chunk. rewrite chunk_from_slices by lia.
  now rewrite length_map, length_seq.
Qed.

Example chunk_empty : chunk (@nil nat) 50 = [].
Proof. reflexivity. Qed.

(** X1: batching loses nothing and repeats nothing: for a batch size
    [n > 0] the batches of [chunk(lst, n)], put end to end, are [lst]. *)
Theorem chunk_concat (A : Type) (lst : list A) (n : nat) (Hn : 0 < n) :
  List.concat (chunk lst n) = lst.
Proof. unfold chunk. now apply chunk_from_concat. Qed.

Lemma chunk_concat_witness :
  List.concat (chunk [1; 2; 3; 4; 5; 6; 7] 3) = [1; 2; 3; 4; 5; 6; 7].
Proof. apply (@chunk_concat nat [1; 2; 3; 4; 5; 6; 7] 3). lia. Defined.

(** X2: for a batch size [n > 0], [chunk(lst, n)] is the sequence of the
    slices [lst[k*n : k*n + n]] for [k] from 0 up to the length of [lst]
    divided by [n], rounded up; every batch holds at least one and at most
    [n] elements. *)
Theorem chunk_slices (A : Type) (lst : list A) (n : nat) (Hn : 0 < n) :
  chunk lst n
  = map (fun k => firstn n (skipn (k * n) lst))
        (seq 0 ((List.length lst + n - 1) / n)) /\
  List.length (chunk lst n) = (List.length lst + n - 1) / n /\
  Forall (fun g => 1 <= List.length g <= n) (chunk lst n).
Proof.
  assert (E : chunk lst n
              = map (fun k => firstn n (skipn (k * n) lst))
                    (seq 0 ((List.length lst + n - 1) / n)))
    by (unfold chunk; now apply chunk_from_slices).
  split; [exact E|]. split.
  - now rewrite E, length_map, length_seq.
  - rewrite E. apply Forall_forall. intros g Hg.
    apply in_map_iff in Hg as (k & <- & Hk). apply in_seq in Hk.
    rewrite length_firstn, length_skipn.
    assert (k * n < List.length lst); [|lia].
    destruct Hk as [_ Hk]. simpl in Hk.
    assert (H1 : k + 1 <= (List.length lst + n - 1) / n) by lia.
    apply (Nat.mul_le_mono_r _ _ n) in H1.
    pose proof (Nat.Div0.mul_div_le (List.length lst + n - 1) n). nia.
Qed.

Lemma chunk_slices_witness :
  chunk [1; 2; 3; 4; 5; 6; 7] 3 = [[1; 2; 3]; [4; 5; 6]; [7]] /\
  List.length (chunk [1; 2; 3; 4; 5; 6; 7] 3) = 3 /\
  Forall (fun g => 1 <= List.length g <= 3) (chunk [1; 2; 3; 4; 5; 6; 7] 3).
Proof. apply (@chunk_slices nat [1; 2; 3; 4; 5; 6; 7] 3). lia. Defined.

End ChunkFacts.

(* ------------------------------------------------------------------ *)
(** ** The pagination loop *)

Module PagingFacts.

Import Net Fetch Served Paging FetchFacts.
Open Scope Z_scope.
Open Scope list_scope.

Lemma firstn_plus {A} (i j : nat) (l : list A) :
  firstn i l ++ firstn j (skipn i l) = firstn (i + j) l.
Proof.
  revert l; induction i as [|i IH]; intros l; simpl; [reflexivity|].
  destruct l as [|x l]; simpl.
  - now rewrite firstn_nil.
  - now rewrite IH.
Qed.

Lemma ceil_50_gt (x j : nat) : (50 * j < x -> j < (x + 49) / 50)%nat.
Proof.
  intros H. assert (S j <= (x + 49) / 50)%nat; [|lia].
  apply Nat.div_le_lower_bound; lia.
Qed.

Lemma ceil_50_le (x j : nat) : (x <= 50 * j -> (x + 49) / 50 <= j)%nat.
Proof.
  intros H. assert ((x + 49) / 50 < S j)%nat; [|lia].
  apply Nat.Div0.div_lt_upper_bound; lia.
Qed.

Lemma ceil_50_cover (x : nat) : (x <= 50 * ((x + 49) / 50))%nat.
Proof. pose proof (Nat.mul_succ_div_gt (x + 49) 50). lia. Qed.

Lemma calls_needed_gt (m len j : nat) :
  (j = 0 \/ (50 * j < len /\ 50 * j < m))%nat ->
  (j < calls_needed m len)%nat.
Proof.
  unfold calls_needed. intros [->|[H1 H2]]; [lia|].
  pose proof (@ceil_50_gt (Nat.min m len) j). lia.
Qed.

Lemma calls_needed_eq (m len j : nat) :
  (j = 0 \/ (50 * j < len /\ 50 * j < m))%nat ->
  (len <= 50 * j + 50 \/ m <= 50 * j + 50)%nat ->
  calls_needed m len = S j.
Proof.
  intros Hj Hstop. pose proof (calls_needed_gt Hj) as Hgt.
  unfold calls_needed in *.
  pose proof (@ceil_50_le (Nat.min m len) (S j)). lia.
Qed.

Lemma calls_needed_cover (m len : nat) :
  (m <= 50 * calls_needed m len \/ len <= 50 * calls_needed m len)%nat.
Proof.
  unfold calls_needed. pose proof (ceil_50_cover (Nat.min m len)). lia.
Qed.

Section Served.

Variable api : remote.
Variables (key pl : string) (tok : nat -> string) (L : list string).
Variable max_items : Z.
Hypothesis Hmax : 0 <= max_items.
Hypothesis Hpages : serves_pages api key pl tok L.

Let m : nat := Z.to_nat max_items.
Let len : nat := List.length L.
Let n : nat := calls_needed m len.

Lemma page_answer (j : nat) :
  playlistItems api key pl 50 (page_token tok j)
  = (200, page_of tok L (50 * j)).
Proof.
  destruct Hpages as (_ & H0 & Hoff). destruct j as [|j].
  - exact H0.
  - apply Hoff. lia.
Qed.

Lemma tok_truthy (off : nat) : falsy (Some (tok off)) = false.
Proof.
  destruct Hpages as (Htok & _). simpl.
  destruct (String.eqb_spec (tok off) ""); [now destruct (Htok off) | easy].
Qed.

(** The loop, entered for page [j] with the first [50 * j] IDs collected,
    collects the first [50 * n] and asks for the pages from [j] to
    [n - 1]. *)
Lemma pages_run (fuel : nat) :
  forall (j : nat) (l : log),
    (j = 0 \/ (50 * j < len /\ 50 * j < m))%nat ->
    (n - j <= fuel)%nat ->
    pages api fuel key pl max_items (firstn (50 * j) L) (page_token tok j) l
    = Some (Ok (firstn (50 * n) L),
            l ++ map (fun k => PlaylistItems key pl 50 (page_token tok k))
                   (seq j (n - j))).
Proof.
  induction fuel as [|fuel IH]; intros j l Hj Hfuel.
  - exfalso. pose proof (calls_needed_gt Hj). fold n in H. lia.
  - rewrite pages_step
      with (page := fst (page_of tok L (50 * j)))
           (next := snd (page_of tok L (50 * j)))
      by (rewrite page_answer; now destruct (page_of tok L (50 * j))).
    unfold page_of. cbn [fst snd].
    rewrite firstn_plus, length_firstn. fold len.
    destruct (Nat.ltb_spec (50 * j + 50) len) as [Hlt|Hge].
    + rewrite tok_truthy. cbn [orb].
      destruct (Z.leb_spec max_items
                  (Z.of_nat (Nat.min (50 * j + 50) len))) as [Hstop|Hgo].
      * assert (En : n = S j) by (apply calls_needed_eq; unfold m; lia).
        rewrite En. replace (S j - j)%nat with 1%nat by lia.
        now replace (50 * S j)%nat with (50 * j + 50)%nat by lia.
      * replace (50 * j + 50)%nat with (50 * S j)%nat by lia.
        change (Some (tok (50 * S j)%nat)) with (page_token tok (S j)).
        rewrite IH by (unfold m in *; lia).
        assert (Hn : (n - j = S (n - S j))%nat)
          by (pose proof (calls_needed_gt Hj) as Hgt; fold n in Hgt; lia).
        rewrite Hn. cbn [seq map]. now rewrite <- app_assoc.
    + cbn [falsy orb].
      assert (En : n = S j) by (apply calls_needed_eq; [exact Hj | lia]).
      rewrite En. replace (S j - j)%nat with 1%nat by lia.
      now replace (50 * S j)%nat with (50 * j + 50)%nat by lia.
Qed.

Lemma enough_pages : (m <= 50 * n \/ len <= 50 * n)%nat.
Proof. apply calls_needed_cover. Qed.

Lemma list_upload_video_ids_run (fuel : nat) (l : log) :
  (n <= fuel)%nat ->
  list_upload_video_ids api fuel key pl max_items l
  = Some (Ok (firstn m L), l ++ page_calls key pl tok n).
Proof.
  intros Hfuel. unfold list_upload_video_ids.
  rewrite bind_ok
    with (a := firstn (50 * n) L) (l' := l ++ page_calls key pl tok n).
  - unfold ret, slice_to. destruct (Z.leb_spec 0 max_items); [|lia].
    fold m. do 3 f_equal.
    rewrite firstn_firstn.
    destruct enough_pages as [H1|H1].
    + now rewrite Nat.min_l.
    + destruct (Nat.le_gt_cases m (50 * n)); [now rewrite Nat.min_l|].
      rewrite Nat.min_r by lia. fold len in H1.
      rewrite !firstn_all2 by (fold len; lia). reflexivity.
  - pose proof (pages_run (fuel := fuel) (j := 0) l) as H.
    rewrite Nat.sub_0_r in H. apply H; [now left | exact Hfuel].
Qed.

End Served.

Section AnyRemote.

Variable api : remote.
Variables (key pl : string) (max_items : Z).

(** Whatever the remote side answers, the loop only asks for pages of the
    playlist, at least once, and only an HTTP error status makes it
    raise. *)
Lemma pages_requests (fuel : nat) :
  forall (ids : list string) (token : option string) (l l' : log)
         (r : result (list string)),
    pages api fuel key pl max_items ids token l = Some (r, l') ->
    exists calls,
      l' = l ++ calls /\ calls <> [] /\
      Forall (is_page_call key pl) calls /\
      match r with
      | Ok _ => True
      | Raise e => exists status, e = HTTPError status /\ 400 <= status < 600
      end.
Proof.
  induction fuel as [|fuel IH]; intros ids token l l' r; [discriminate|].
  cbn [pages]. unfold bind at 1. unfold get at 1.
  destruct (playlistItems api key pl 50 token) as [status [page next]].
  cbn [fst snd]. unfold bind at 1. unfold raise_for_status.
  assert (Hcall : is_page_call key pl (PlaylistItems key pl 50 token))
    by now exists token.
  destruct ((400 <=? status) && (status <? 600)) eqn:Est.
  - unfold raise. intros [= <- <-].
    exists [PlaylistItems key pl 50 token]. repeat split; try easy.
    + now constructor.
    + exists status. split; [reflexivity|].
      apply andb_true_iff in Est as [H1 H2].
      apply Z.leb_le in H1. apply Z.ltb_lt in H2. lia.
  - unfold ret at 1.
    destruct (falsy next || (max_items <=? Z.of_nat (List.length (ids ++ page)))).
    + unfold ret. intros [= <- <-].
      exists [PlaylistItems key pl 50 token]. repeat split; try easy.
      now constructor.
    + intros H. apply IH in H as (calls & -> & _ & Hall & Hr).
      exists (PlaylistItems key pl 50 token :: calls). repeat split.
      * now rewrite <- app_assoc.
      * discriminate.
      * now constructor.
      * exact Hr.
Qed.

(** With a remote side that makes no progress the loop runs for ever. *)
Lemma pages_stuck (t : string) (fuel : nat) :
  t <> ""%string -> 1 <= max_items ->
  (forall token, playlistItems api key pl 50 token = (200, ([], Some t))) ->
  forall (token : option string) (l : log),
    pages api fuel key pl max_items [] token l = None.
Proof.
  intros Ht Hmax Hstuck. induction fuel as [|fuel IH]; intros token l;
    [reflexivity|].
  rewrite pages_step with (page := []) (next := Some t) by apply Hstuck.
  cbn [falsy app List.length].
  destruct (String.eqb_spec t ""); [contradiction|].
  destruct (Z.leb_spec max_items (Z.of_nat 0)); [simpl in *; lia|].
  cbn [orb]. apply IH.
Qed.

End AnyRemote.

(** X3: against a remote side that serves the uploads container [L] in
    pages of 50, and for [max_items >= 0], [list_upload_video_ids] returns
    exactly the first [max_items] IDs of [L] (all of [L] when it holds
    fewer), and it asks for as many pages as cover the smaller of
    [max_items] and the size of [L], one page at least: the first without a
    token, each later one with the token of its offset.  Fuel for that many
    turns of the loop is enough. *)
Theorem list_upload_video_ids_prefix (api : remote) (key pl : string)
  (tok : nat -> string) (L : list string) (max_items : Z) (fuel : nat)
  (Hmax : 0 <= max_items)
  (Hpages : serves_pages api key pl tok L)
  (Hfuel : (calls_needed (Z.to_nat max_items) (List.length L) <= fuel)%nat) :
  run (list_upload_video_ids api fuel key pl max_items)
  = Some (Ok (firstn (Z.to_nat max_items) L),
          page_calls key pl tok
            (calls_needed (Z.to_nat max_items) (List.length L))).
Proof.
  unfold run.
  now rewrite (list_upload_video_ids_run Hmax Hpages (fuel := fuel)).
Qed.

Lemma list_upload_video_ids_prefix_witness :
  run (list_upload_video_ids Sample.api 2 "k" "UUsample" 70)
  = Some (Ok (firstn 70 Sample.uploads),
          [PlaylistItems "k" "UUsample" 50 None;
           PlaylistItems "k" "UUsample" 50 (Some (Sample.token 50))]).
Proof.
  apply (@list_upload_video_ids_prefix Sample.api "k" "UUsample"
           Sample.token Sample.uploads 70 2).
  - lia.
  - apply sample_serves_pages.
  - vm_compute. lia.
Defined.

(** X4: whenever [list_upload_video_ids] returns a list (for
    [max_items >= 0]), whatever the remote side answered, the list holds at
    most [max_items] IDs, and the requests made are one at least, each of
    them asking the [playlistItems] endpoint for 50 items of the given
    playlist. *)
Theorem list_upload_video_ids_bounds (api : remote) (key pl : string)
  (max_items : Z) (fuel : nat) (ids : list string) (l : log)
  (Hmax : 0 <= max_items)
  (Hrun : run (list_upload_video_ids api fuel key pl max_items)
          = Some (Ok ids, l)) :
  l <> [] /\
  Forall (is_page_call key pl) l /\
  (List.length ids <= Z.to_nat max_items)%nat.
Proof.
  unfold run, list_upload_video_ids, bind in Hrun.
  destruct (pages api fuel key pl max_items [] None [])
    as [[[ids0|e] l0]|] eqn:E; [| discriminate | discriminate].
  apply pages_requests in E as (calls & -> & Hne & Hall & _).
  unfold ret in Hrun. injection Hrun as <- <-.
  repeat split; try assumption.
  unfold slice_to. destruct (Z.leb_spec 0 max_items); [|lia].
  rewrite length_firstn. lia.
Qed.

Lemma list_upload_video_ids_bounds_witness :
  [PlaylistItems "k" "UUsample" 50 None;
   PlaylistItems "k" "UUsample" 50 (Some (Sample.token 50))] <> [] /\
  Forall (is_page_call "k" "UUsample")
    [PlaylistItems "k" "UUsample" 50 None;
     PlaylistItems "k" "UUsample" 50 (Some (Sample.token 50))] /\
  (List.length (firstn 70 Sample.uploads) <= Z.to_nat 70)%nat.
Proof.
  apply (@list_upload_video_ids_bounds Sample.api "k" "UUsample" 70 2
           (firstn 70 Sample.uploads)).
  - lia.
  - vm_compute. reflexivity.
Defined.

(** X5: the pagination loop has no bound of its own.  Against a remote side
    that answers every request with an empty page and a non-empty token,
    and for [max_items >= 1], [list_upload_video_ids] never ends: no amount
    of fuel gives a result. *)
Theorem list_upload_video_ids_no_progress (api : remote) (key pl t : string)
  (max_items : Z)
  (Ht : t <> ""%string) (Hmax : 1 <= max_items)
  (Hstuck : forall token,
      playlistItems api key pl 50 token = (200, ([], Some t))) :
  forall fuel : nat,
    run (list_upload_video_ids api fuel key pl max_items) = None.
Proof.
  intros fuel. unfold run, list_upload_video_ids, bind.
  now rewrite pages_stuck with (t := t).
Qed.

Lemma list_upload_video_ids_no_progress_witness :
  run (list_upload_video_ids (stuck "t") 1000 "k" "UUsample" 200) = None.
Proof.
  refine (@list_upload_video_ids_no_progress (stuck "t") "k" "UUsample" "t"
            200 _ _ _ 1000).
  - discriminate.
  - lia.
  - reflexivity.
Defined.

End PagingFacts.

(* ------------------------------------------------------------------ *)
(** ** The details lookup *)

Module DetailsFacts.

Import Text TextFacts Net Fetch Served Batches FetchFacts.
Open Scope Z_scope.
Open Scope list_scope.

Section Details.

Variable api : remote.
Variable dtparse : string -> option Video.instant.
Variable key : string.

(** The batches that are answered are looked up in order, one request
    each, and their records are appended. *)
Lemma details_answered (groups rest : list (list string)) :
  Forall (answers_batch api dtparse key) groups ->
  forall (out : list Video.t) (l : log),
  exists recs,
    details api dtparse key (groups ++ rest) out l
    = details api dtparse key rest (out ++ recs)
        (l ++ map (batch_call key) groups) /\
    List.length recs = List.length (List.concat groups).
Proof.
  induction 1 as [|g groups (items & recs & Hv & Hlen & Hr) _ IH];
    intros out l.
  - exists []. now rewrite !app_nil_r.
  - destruct (IH (out ++ recs) (l ++ [batch_call key g]))
      as (recs' & E & Hlen').
    exists (recs ++ recs'). split.
    + cbn [app]. rewrite details_step with (items := items) (recs := recs)
        by assumption.
      fold (batch_call key g). rewrite E.
      cbn [map]. now rewrite <- !app_assoc.
    + cbn [List.concat]. rewrite !length_app, Hlen'.
      apply map_result_length in Hr. lia.
Qed.

(** A batch that fails ends the loop with its exception. *)
Lemma details_failed (g : list string) (rest : list (list string))
  (e : exn) (out : list Video.t) (l : log) :
  batch_fails api dtparse key g e ->
  details api dtparse key (g :: rest) out l
  = Some (Raise e, l ++ [batch_call key g]).
Proof.
  intros (status & items & Hv & H).
  cbn [details]. unfold bind, get, raise_for_status, lift. rewrite Hv.
  cbn [fst snd].
  destruct H as [[Hst ->]|[Hst Hr]]; rewrite Hst; [reflexivity|].
  unfold ret. now rewrite Hr.
Qed.

End Details.

(** X6: when the details endpoint answers every batch, with one convertible
    item per ID, [fetch_video_details] makes exactly one request per batch
    of [chunk(video_ids, 50)], in order, that is the number of IDs divided
    by 50 and rounded up (none for an empty list), and it returns as many
    records as it was given IDs. *)
Theorem fetch_video_details_batches (api : remote)
  (dtparse : string -> option Video.instant) (key : string)
  (video_ids : list string)
  (Hvideos : serves_videos api dtparse key video_ids) :
  exists recs,
    run (fetch_video_details api dtparse key video_ids)
    = Some (Ok recs, map (batch_call key) (chunk video_ids 50)) /\
    List.length recs = List.length video_ids /\
    List.length (map (batch_call key) (chunk video_ids 50))
    = ((List.length video_ids + 49) / 50)%nat.
Proof.
  destruct (details_answered [] Hvideos [] [])
    as (recs & E & Hlen).
  exists recs. repeat split.
  - unfold run. rewrite fetch_video_details_chunks.
    rewrite app_nil_r in E. rewrite E. reflexivity.
  - rewrite Hlen, ChunkFacts.chunk_joined by lia. reflexivity.
  - rewrite length_map, ChunkFacts.chunk_count by lia.
    now replace (List.length video_ids + 50 - 1)%nat
      with (List.length video_ids + 49)%nat by lia.
Qed.

Lemma fetch_video_details_batches_witness :
  exists recs,
    run (fetch_video_details Sample.api Sample.dtparse "k"
           (firstn 120 Sample.uploads))
    = Some (Ok recs,
            map (batch_call "k") (chunk (firstn 120 Sample.uploads) 50)) /\
    List.length recs = List.length (firstn 120 Sample.uploads) /\
    List.length (map (batch_call "k") (chunk (firstn 120 Sample.uploads) 50))
    = ((List.length (firstn 120 Sample.uploads) + 49) / 50)%nat.
Proof.
  apply (@fetch_video_details_batches Sample.api Sample.dtparse "k").
  apply sample_serves_videos.
Defined.

(** X7: the first batch whose lookup fails, by a 4xx or 5xx status or by an
    item that cannot be turned into a record, aborts
    [fetch_video_details]: the exception of that batch is raised, the
    records of the batches before it are not returned, and no request is
    made for the batches after it. *)
Theorem fetch_video_details_aborts (api : remote)
  (dtparse : string -> option Video.instant) (key : string)
  (video_ids : list string) (before after : list (list string))
  (g : list string) (e : exn)
  (Hsplit : chunk video_ids 50 = before ++ g :: after)
  (Hbefore : Forall (answers_batch api dtparse key) before)
  (Hfails : batch_fails api dtparse key g e) :
  run (fetch_video_details api dtparse key video_ids)
  = Some (Raise e, map (batch_call key) (before ++ [g])).
Proof.
  unfold run. rewrite fetch_video_details_chunks, Hsplit.
  destruct (details_answered (g :: after) Hbefore [] [])
    as (recs & E & _).
  rewrite E, (details_failed _ _ _ Hfails), map_app. reflexivity.
Qed.

Lemma second_batch_fails :
  let bad := String.concat "," (firstn 50 (skipn 50 Sample.uploads)) in
  chunk (firstn 120 Sample.uploads) 50
  = [firstn 50 Sample.uploads] ++ firstn 50 (skipn 50 Sample.uploads)
      :: [firstn 20 (skipn 100 Sample.uploads)] /\
  Forall (answers_batch (failing_on bad) Sample.dtparse "k")
    [firstn 50 Sample.uploads] /\
  batch_fails (failing_on bad) Sample.dtparse "k"
    (firstn 50 (skipn 50 Sample.uploads)) (HTTPError 503).
Proof.
  intros bad. split; [vm_compute; reflexivity|]. split.
  - repeat constructor. unfold answers_batch.
    eexists; eexists; (split; [|split]); vm_compute; reflexivity.
  - exists 503, []. split; [vm_compute; reflexivity|].
    left. split; reflexivity.
Qed.

Lemma fetch_video_details_aborts_witness :
  run (fetch_video_details
         (failing_on
            (String.concat "," (firstn 50 (skipn 50 Sample.uploads))))
         Sample.dtparse "k" (firstn 120 Sample.uploads))
  = Some (Raise (HTTPError 503),
          map (batch_call "k")
            ([firstn 50 Sample.uploads]
             ++ [firstn 50 (skipn 50 Sample.uploads)])).
Proof.
  destruct second_batch_fails as (H1 & H2 & H3).
  exact (@fetch_video_details_aborts _ _ _ _ _ _ _ _ H1 H2 H3).
Defined.

End DetailsFacts.

(* ------------------------------------------------------------------ *)
(** ** The records of the fetch pipeline *)

Module RecordFacts.

Import Text TextFacts Net Fetch Batches Ascii7 FetchFacts.
Open Scope Z_scope.
Open Scope list_scope.

Lemma ascii_isdigit (s : string) :
  all is_ascii s = true ->
  all (fun c => is_digit c || is_superscript_digit c) s = true ->
  all is_digit s = true.
Proof.
  induction s as [|c s IH]; cbn [all]; [reflexivity|].
  intros Ha Hd.
  apply andb_true_iff in Ha as [Hc Ha], Hd as [Hcd Hd].
  rewrite (IH Ha Hd), andb_true_r.
  apply orb_true_iff in Hcd as [Hcd|Hcd]; [exact Hcd|].
  unfold is_ascii in Hc. apply N.ltb_lt in Hc.
  unfold is_superscript_digit in Hcd.
  repeat (apply orb_true_iff in Hcd as [Hcd|Hcd]);
    apply N.eqb_eq in Hcd; lia.
Qed.

Lemma count_field_nonneg (x : option string) (n : Z) :
  count_field x = Ok n -> 0 <= n.
Proof.
  unfold count_field, int_str, int_of_str.
  destruct x as [s|]; [|intros [= <-]; lia].
  destruct (isdigit s); [|intros [= <-]; lia].
  destruct (all is_digit s) eqn:E; [|discriminate].
  destruct (String.length s <=? int_max_str_digits)%nat; [|discriminate].
  intros [= <-]. now apply int_of_digits_nonneg.
Qed.

Lemma iso_to_seconds_nonneg (iso : string) (n : Z) :
  Duration.iso_to_seconds iso = Ok n -> 0 <= n.
Proof.
  intros H.
  destruct (DurationFacts.iso_to_seconds_cases iso)
    as [[_ E]|[_ [(k & Hk & E)|(msg & E)]]]; rewrite E in H;
    [discriminate | | discriminate].
  now injection H as <-.
Qed.

Lemma make_record_ok (dtparse : string -> option Video.instant)
  (it : video_item) (v : Video.t) :
  make_record dtparse it = Ok v -> record_ok v.
Proof.
  unfold make_record, and_then.
  destruct (parse_publishedAt dtparse (item_publishedAt it)) as [p|];
    [|discriminate].
  destruct (Duration.iso_to_seconds (item_duration it)) as [d|] eqn:Ed;
    [|discriminate].
  destruct (count_field (item_likeCount it)) as [nl|] eqn:El;
    [|discriminate].
  destruct (count_field (item_commentCount it)) as [nc|] eqn:Ec;
    [|discriminate].
  intros [= <-]. unfold record_ok. cbn.
  apply iso_to_seconds_nonneg in Ed.
  apply count_field_nonneg in El, Ec. now repeat split.
Qed.

Lemma map_result_Forall {A B} (f : A -> result B) (P : B -> Prop)
  (l : list A) (ys : list B) :
  (forall x y, f x = Ok y -> P y) ->
  map_result f l = Ok ys -> Forall P ys.
Proof.
  intros Hf. revert ys; induction l as [|x l IH]; intros ys; cbn [map_result].
  - intros [= <-]. constructor.
  - unfold and_then. destruct (f x) as [y|] eqn:Ex; [|discriminate].
    destruct (map_result f l) as [ys'|]; [|discriminate].
    intros [= <-]. constructor; [now apply (Hf x) | now apply IH].
Qed.

Lemma bind_inv_ok {A B} (m : M A) (f : A -> M B) (l l' : log) (b : B) :
  bind m f l = Some (Ok b, l') ->
  exists a l1, m l = Some (Ok a, l1) /\ f a l1 = Some (Ok b, l').
Proof.
  unfold bind. destruct (m l) as [[[a|e] l1]|]; try discriminate.
  intros H. now exists a, l1.
Qed.

Lemma insert_desc_Forall (P : Video.t -> Prop) (x : Video.t)
  (l : list Video.t) :
  P x -> Forall P l -> Forall P (insert_desc x l).
Proof.
  intros Hx. induction 1 as [|y l Hy Hl IH]; cbn [insert_desc].
  - now constructor.
  - destruct (sort_key x <? sort_key y); repeat constructor; assumption.
Qed.

Lemma sort_newest_first_Forall (P : Video.t -> Prop) (l : list Video.t) :
  Forall P l -> Forall P (sort_newest_first l).
Proof.
  induction 1 as [|x l Hx Hl IH]; cbn; [constructor|].
  now apply insert_desc_Forall.
Qed.

Section AnyRemote.

Variable api : remote.
Variable dtparse : string -> option Video.instant.
Variable key : string.

Lemma details_records (groups : list (list string)) :
  forall (out recs : list Video.t) (l l' : log),
    Forall record_ok out ->
    details api dtparse key groups out l = Some (Ok recs, l') ->
    Forall record_ok recs.
Proof.
  induction groups as [|g groups IH]; intros out recs l l' Hout.
  - cbn. unfold ret. now intros [= <- _].
  - cbn [details]. intros H.
    apply bind_inv_ok in H as (r & l1 & _ & H).
    apply bind_inv_ok in H as (_ & l2 & _ & H).
    apply bind_inv_ok in H as (recs' & l3 & Hr & H).
    apply IH in H; [exact H|].
    apply Forall_app. split; [exact Hout|].
    unfold lift in Hr. injection Hr as Hr _.
    eapply map_result_Forall; [apply (make_record_ok dtparse) | exact Hr].
Qed.

Lemma fetch_video_details_records (ids : list string)
  (recs : list Video.t) (l l' : log) :
  fetch_video_details api dtparse key ids l = Some (Ok recs, l') ->
  Forall record_ok recs.
Proof.
  rewrite fetch_video_details_chunks. now apply details_records.
Qed.

End AnyRemote.

(** X8: whatever the remote side answers, every record that
    [fetch_video_details] returns, and so every record that
    [load_channel_data] returns, has a [url] that is the watch URL followed
    by its [id] verbatim, and non-negative [duration_seconds], [likes] and
    [comments]. *)
Theorem fetched_records_ok (api : remote)
  (dtparse : string -> option Video.instant) :
  (forall key ids recs l,
     run (fetch_video_details api dtparse key ids) = Some (Ok recs, l) ->
     Forall record_ok recs) /\
  (forall fuel key channel_id max_items recs l,
     run (load_channel_data api dtparse fuel key channel_id max_items)
     = Some (Ok recs, l) ->
     Forall record_ok recs).
Proof.
  split.
  - intros key ids recs l H. now apply fetch_video_details_records in H.
  - intros fuel key channel_id max_items recs l H.
    unfold run, load_channel_data in H.
    apply bind_inv_ok in H as (uploads & l1 & _ & H).
    apply bind_inv_ok in H as (ids & l2 & _ & H).
    apply bind_inv_ok in H as (recs' & l3 & Hrecs & H).
    unfold ret in H. injection H as <- _.
    apply sort_newest_first_Forall.
    now apply fetch_video_details_records in Hrecs.
Qed.

Lemma fetched_records_ok_witness :
  Forall record_ok
    [Video.Make "v" "title" "https://www.youtube.com/watch?v=v"
       (Some (Calendar.utc 2024 1 15 0 0 0)) 65 3 0 None].
Proof.
  apply (proj1 (fetched_records_ok Sample.api Sample.dtparse)
           "k" ["v"%string] _ [Videos "k" "v"]).
  reflexivity.
Defined.

(** X9: the conversion of a like or comment count never gives a negative
    number; on a text of at most 4300 ASCII characters (the most digits
    [int] converts) it never raises, and gives 0 unless the text is a
    non-empty run of the digits ['0'..'9']; but a text made only of the
    digits ['0'..'9'] and the superscript digits one, two and three, with
    a superscript digit among them, passes [isdigit] and makes [int] raise
    [ValueError] instead of counting as 0. *)
Theorem count_field_edges :
  (forall x n, count_field x = Ok n -> 0 <= n) /\
  (forall s,
     all is_ascii s = true -> (String.length s <= 4300)%nat ->
     exists n,
       count_field (Some s) = Ok n /\
       (n <> 0 -> s <> ""%string /\ all is_digit s = true)) /\
  (forall s,
     all (fun c => is_digit c || is_superscript_digit c) s = true ->
     all (fun c => negb (is_superscript_digit c)) s = false ->
     isdigit s = true /\
     exists msg, count_field (Some s) = Raise (ValueError msg)).
Proof.
  split; [exact count_field_nonneg|]. split.
  - intros s Ha Hlen. unfold count_field, int_str, isdigit, int_of_str.
    destruct (String.eqb_spec s "") as [->|Hne]; cbn [negb andb].
    + exists 0. split; [reflexivity | congruence].
    + destruct (all (fun c => is_digit c || is_superscript_digit c) s)
        eqn:Ed.
      * rewrite (ascii_isdigit _ Ha Ed).
        apply Nat.leb_le in Hlen. unfold int_max_str_digits. rewrite Hlen.
        eexists. split; [reflexivity|].
        intros _. split; [exact Hne | reflexivity].
      * exists 0. split; [reflexivity | congruence].
  - intros s Hd Hs.
    assert (Hne : s <> ""%string) by (intros ->; discriminate Hs).
    assert (Hn : all is_digit s = false).
    { clear Hne. induction s as [|c s IH]; [discriminate Hs|].
      cbn [all] in *. apply andb_true_iff in Hd as [Hc Hd].
      destruct (is_superscript_digit c) eqn:Esup; cbn [negb andb] in Hs.
      - replace (is_digit c) with false; [reflexivity|].
        unfold is_superscript_digit in Esup. unfold is_digit, between.
        symmetry. apply andb_false_iff.
        repeat (apply orb_true_iff in Esup as [Esup|Esup]);
          apply N.eqb_eq in Esup; rewrite Esup; now right.
      - rewrite (IH Hd Hs). apply andb_false_r. }
    unfold count_field, int_str, isdigit.
    destruct (String.eqb_spec s ""); [contradiction|].
    cbn [negb andb]. rewrite Hd, Hn. split; [reflexivity | eauto].
Qed.

Lemma count_field_edges_witness :
  (exists n,
     count_field (Some "1,024"%string) = Ok n /\
     (n <> 0 -> "1,024"%string <> ""%string /\
                all is_digit "1,024" = true)) /\
  (isdigit (String "1" (String "178" "")) = true /\
   exists msg,
     count_field (Some (String "1" (String "178" "")))
     = Raise (ValueError msg)).
Proof.
  split.
  - apply (proj1 (proj2 count_field_edges) "1,024"%string);
      [reflexivity | cbn; lia].
  - apply (proj2 (proj2 count_field_edges)); reflexivity.
Defined.

End RecordFacts.

(* ------------------------------------------------------------------ *)
(** ** Newest first *)

Module SortFacts.

Import Net Fetch Newest.
Open Scope Z_scope.
Open Scope list_scope.

Lemma insert_desc_perm (x : Video.t) (l : list Video.t) :
  Permutation (x :: l) (insert_desc x l).
Proof.
  induction l as [|y l IH]; cbn [insert_desc]; [reflexivity|].
  destruct (sort_key x <? sort_key y); [|reflexivity].
  rewrite perm_swap. now constructor.
Qed.

Lemma insert_desc_sorted (x : Video.t) (l : list Video.t) :
  StronglySorted not_older l -> StronglySorted not_older (insert_desc x l).
Proof.
  induction 1 as [|y l Hl IH Hy]; cbn [insert_desc].
  - repeat constructor.
  - destruct (Z.ltb_spec (sort_key x) (sort_key y)) as [Hlt|Hge].
    + constructor; [exact IH|].
      apply (Permutation_Forall (insert_desc_perm x l)).
      constructor; [unfold not_older; lia | exact Hy].
    + constructor; [now constructor|].
      constructor; [exact Hge|].
      apply (Forall_impl _ (P := not_older y)); [|exact Hy].
      unfold not_older. intros b Hb. lia.
Qed.

(** Inserting a record leaves the records of any one key in their order,
    the new one in front. *)
Lemma insert_desc_stable (k : Z) (x : Video.t) (l : list Video.t) :
  filter (fun v => sort_key v =? k) (insert_desc x l)
  = filter (fun v => sort_key v =? k) (x :: l).
Proof.
  induction l as [|y l IH]; cbn [insert_desc]; [reflexivity|].
  destruct (Z.ltb_spec (sort_key x) (sort_key y)) as [Hlt|Hge];
    [|reflexivity].
  cbn [filter] in *. rewrite IH.
  destruct (Z.eqb_spec (sort_key x) k), (Z.eqb_spec (sort_key y) k);
    try reflexivity. lia.
Qed.

Lemma sort_newest_first_sorted (recs : list Video.t) :
  StronglySorted not_older (sort_newest_first recs).
Proof.
  induction recs as [|x recs IH]; cbn; [constructor|].
  now apply insert_desc_sorted.
Qed.

(** X10: the sort that ends [load_channel_data] rearranges the records
    without adding or losing any, puts them newest first, a record without
    [publishedAt] counting as published at the earliest [datetime], and
    keeps records of equal publish time in the order they were fetched. *)
Theorem sort_newest_first_spec (recs : list Video.t) :
  Permutation recs (sort_newest_first recs) /\
  StronglySorted not_older (sort_newest_first recs) /\
  (forall k,
     filter (fun v => sort_key v =? k) (sort_newest_first recs)
     = filter (fun v => sort_key v =? k) recs) /\
  (forall v, Video.publishedAt v = None -> sort_key v = datetime_min).
Proof.
  repeat split.
  - induction recs as [|x recs IH]; cbn; [constructor|].
    rewrite <- insert_desc_perm. now constructor.
  - apply sort_newest_first_sorted.
  - intros k. induction recs as [|x recs IH]; [reflexivity|].
    cbn [sort_newest_first fold_right]. rewrite insert_desc_stable.
    cbn [filter]. fold (sort_newest_first recs). now rewrite IH.
  - intros v Hv. unfold sort_key. now rewrite Hv.
Qed.

Example sort_newest_first_run :
  let a := Video.Make "a" "" "" (Some 5) 0 0 0 None in
  let b := Video.Make "b" "" "" None 0 0 0 None in
  let c := Video.Make "c" "" "" (Some 9) 0 0 0 None in
  let d := Video.Make "d" "" "" (Some 5) 0 0 0 None in
  sort_newest_first [a; b; c; d] = [c; a; d; b].
Proof. reflexivity. Qed.

(** X11: when the lookup of the uploads playlist fails, by a 4xx or 5xx
    status or by an answer without items, [load_channel_data] raises (the
    HTTP error, or the [ValueError] of an unknown channel) after that one
    request: it asks for no page and for no details. *)
Theorem load_channel_data_no_channel (api : remote)
  (dtparse : string -> option Video.instant) (fuel : nat)
  (key channel_id : string) (max_items status : Z)
  (items : list string)
  (Hmeta : channels_contentDetails api key channel_id = (status, items))
  (Hfail : ((400 <=? status) && (status <? 600) = true) \/ items = []) :
  exists e,
    run (load_channel_data api dtparse fuel key channel_id max_items)
    = Some (Raise e, [ChannelsContentDetails key channel_id]) /\
    (if (400 <=? status) && (status <? 600) then e = HTTPError status
     else e = ValueError
                "Channel not found or API key/channel ID invalid.").
Proof.
  unfold run, load_channel_data, get_uploads_playlist_id, bind, get,
    raise_for_status.
  rewrite Hmeta. cbn [fst snd].
  destruct ((400 <=? status) && (status <? 600)) eqn:Est.
  - eexists. split; reflexivity.
  - destruct Hfail as [Hf| ->]; [discriminate|].
    eexists. split; reflexivity.
Qed.

Lemma load_channel_data_no_channel_witness :
  exists e,
    run (load_channel_data (Paging.stuck "t") Sample.dtparse 5 "k" "UCx" 200)
    = Some (Raise e, [ChannelsContentDetails "k" "UCx"]) /\
    e = ValueError "Channel not found or API key/channel ID invalid.".
Proof.
  apply (@load_channel_data_no_channel (Paging.stuck "t") Sample.dtparse 5
           "k" "UCx" 200 200 []).
  - reflexivity.
  - now right.
Defined.

End SortFacts.

(* ------------------------------------------------------------------ *)
(** ** Windows of the aggregator *)

Module WindowFacts.

Import Kpi KpiFacts.
Open Scope Z_scope.
Open Scope list_scope.

Section Filters.

Context {A : Type}.

Lemma filter_twice (f g : A -> bool) (l : list A) :
  filter f (filter g l) = filter (fun x => g x && f x) l.
Proof.
  induction l as [|x l IH]; cbn [filter]; [reflexivity|].
  destruct (g x); cbn [filter andb]; [|exact IH].
  destruct (f x); now rewrite IH.
Qed.

Lemma filter_split_length (p q r : A -> bool) (l : list A) :
  (forall x, p x = q x || r x) -> (forall x, q x && r x = false) ->
  (List.length (filter p l)
   = List.length (filter q l) + List.length (filter r l))%nat.
Proof.
  intros Hp Hqr. induction l as [|x l IH]; cbn [filter]; [reflexivity|].
  rewrite (Hp x). specialize (Hqr x).
  destruct (q x), (r x); cbn [orb List.length] in *;
    try discriminate; lia.
Qed.

Lemma filter_all (p : A -> bool) (l : list A) :
  (forall x, In x l -> p x = true) -> filter p l = l.
Proof.
  induction l as [|x l IH]; intros H; cbn [filter]; [reflexivity|].
  rewrite (H x) by now left. f_equal. apply IH. intros y Hy.
  apply H. now right.
Qed.

Lemma filter_none (p : A -> bool) (l : list A) :
  (forall x, p x = false) -> filter p l = [].
Proof.
  intros H. induction l as [|x l IH]; cbn [filter]; [reflexivity|].
  now rewrite (H x).
Qed.

End Filters.

Lemma in_range_adjacent (ts : option Video.instant) (start mid end_ : Z) :
  start <= mid -> mid <= end_ ->
  in_range ts start end_ = in_range ts start mid || in_range ts mid end_ /\
  in_range ts start mid && in_range ts mid end_ = false.
Proof.
  intros H1 H2. unfold in_range. destruct ts as [t|]; [|now split].
  destruct (Z.leb_spec start t), (Z.ltb_spec t end_), (Z.ltb_spec t mid),
    (Z.leb_spec mid t); cbn; split; try reflexivity; lia.
Qed.

(** X12: two adjacent windows share no record and together cover the
    window they make up: for [start <= mid <= end], a record is in range of
    [start .. end] exactly when it is in range of [start .. mid] or of
    [mid .. end], never of both, and the total, long-form and short-form
    counts of the whole window are the sums of the counts of its two
    parts. *)
Theorem compute_kpis_adjacent (videos : list Video.t)
  (start mid end_ thr : Z) (H1 : start <= mid) (H2 : mid <= end_) :
  let k := compute_kpis videos start end_ thr in
  let k1 := compute_kpis videos start mid thr in
  let k2 := compute_kpis videos mid end_ thr in
  count_total k = count_total k1 + count_total k2 /\
  count_videos k = count_videos k1 + count_videos k2 /\
  count_shorts k = count_shorts k1 + count_shorts k2 /\
  (forall v, In v (items k) <-> In v (items k1) \/ In v (items k2)) /\
  (forall v, ~ (In v (items k1) /\ In v (items k2))).
Proof.
  intros k k1 k2. subst k k1 k2. cbn [count_total count_videos count_shorts
    items compute_kpis].
  unfold videos_only, shorts_only, items_in_range.
  rewrite !filter_twice.
  repeat split.
  - rewrite <- Nat2Z.inj_add. f_equal. apply filter_split_length;
      intros v; now apply in_range_adjacent.
  - rewrite <- Nat2Z.inj_add. f_equal. apply filter_split_length; intros v;
      destruct (in_range_adjacent (Video.publishedAt v) H1 H2) as [E1 E2].
    + rewrite E1. now destruct (in_range _ start mid), (in_range _ mid end_),
        (thr <? Video.duration_seconds v).
    + now destruct (in_range _ start mid), (in_range _ mid end_),
        (thr <? Video.duration_seconds v).
  - rewrite <- Nat2Z.inj_add. f_equal. apply filter_split_length; intros v;
      destruct (in_range_adjacent (Video.publishedAt v) H1 H2) as [E1 E2].
    + rewrite E1. now destruct (in_range _ start mid), (in_range _ mid end_),
        (Video.duration_seconds v <=? thr).
    + now destruct (in_range _ start mid), (in_range _ mid end_),
        (Video.duration_seconds v <=? thr).
  - rewrite !filter_In.
    destruct (in_range_adjacent (Video.publishedAt v) H1 H2) as [-> _].
    rewrite orb_true_iff. tauto.
  - rewrite !filter_In.
    destruct (in_range_adjacent (Video.publishedAt v) H1 H2) as [-> _].
    rewrite orb_true_iff. tauto.
  - intros v. rewrite !filter_In. intros [[_ Ha] [_ Hb]].
    destruct (in_range_adjacent (Video.publishedAt v) H1 H2) as [_ E].
    rewrite Ha, Hb in E. discriminate.
Qed.

Lemma compute_kpis_adjacent_witness :
  let a := Video.Make "a" "A" "ua" (Some 3) 30 1 1 None in
  let b := Video.Make "b" "B" "ub" (Some 5) 90 1 1 None in
  let c := Video.Make "c" "C" "uc" (Some 7) 30 1 1 None in
  let k := compute_kpis [a; b; c] 0 10 60 in
  let k1 := compute_kpis [a; b; c] 0 5 60 in
  let k2 := compute_kpis [a; b; c] 5 10 60 in
  count_total k = count_total k1 + count_total k2 /\
  count_videos k = count_videos k1 + count_videos k2 /\
  count_shorts k = count_shorts k1 + count_shorts k2 /\
  (forall v, In v (items k) <-> In v (items k1) \/ In v (items k2)) /\
  (forall v, ~ (In v (items k1) /\ In v (items k2))).
Proof.
  intros a b c.
  apply (@compute_kpis_adjacent [a; b; c] 0 5 10 60); lia.
Defined.

(** X13: a window that ends at or before its start holds nothing: no
    record is in range, the three counts are 0 and both top records are
    absent. *)
Theorem compute_kpis_empty_window (videos : list Video.t)
  (start end_ thr : Z) (H : end_ <= start) :
  compute_kpis videos start end_ thr = Kpis [] 0 0 0 None None.
Proof.
  unfold compute_kpis, items_in_range.
  rewrite filter_none; [reflexivity|].
  intros v. unfold in_range. destruct (Video.publishedAt v) as [t|];
    [|reflexivity].
  destruct (Z.leb_spec start t), (Z.ltb_spec t end_); try reflexivity. lia.
Qed.

Lemma compute_kpis_empty_window_witness :
  compute_kpis [Video.Make "a" "A" "ua" (Some 3) 30 1 1 None] 3 3 60
  = Kpis [] 0 0 0 None None.
Proof. apply compute_kpis_empty_window. lia. Defined.

(** X14: the two counts of the page header, the videos longer than the
    threshold and the videos at most as long, add up to the number of
    videos loaded; and a window that holds every loaded video reports these
    same counts. *)
Theorem header_counts (videos : list Video.t) (thr : Z) :
  (List.length (videos_only thr videos)
   + List.length (shorts_only thr videos) = List.length videos)%nat /\
  forall start end_,
    (forall v, In v videos ->
               in_range (Video.publishedAt v) start end_ = true) ->
    let k := compute_kpis videos start end_ thr in
    count_total k = Z.of_nat (List.length videos) /\
    count_videos k = Z.of_nat (List.length (videos_only thr videos)) /\
    count_shorts k = Z.of_nat (List.length (shorts_only thr videos)).
Proof.
  split; [apply duration_split|].
  intros start end_ Hall k. subst k. unfold compute_kpis, items_in_range.
  rewrite filter_all by exact Hall. now repeat split.
Qed.

Lemma header_counts_witness :
  let a := Video.Make "a" "A" "ua" (Some 3) 30 1 1 None in
  let b := Video.Make "b" "B" "ub" (Some 5) 90 1 1 None in
  let k := compute_kpis [a; b] 0 10 60 in
  count_total k = Z.of_nat (List.length [a; b]) /\
  count_videos k = Z.of_nat (List.length (videos_only 60 [a; b])) /\
  count_shorts k = Z.of_nat (List.length (shorts_only 60 [a; b])).
Proof.
  intros a b.
  apply (proj2 (header_counts [a; b] 60) 0 10).
  intros v [<-|[<-|[]]]; reflexivity.
Defined.

End WindowFacts.

(* ------------------------------------------------------------------ *)
(** ** More on the channel resolver *)

Module ResolverPaths.

Import Text TextFacts Net Resolver ChannelShape ResolverFacts Lookup.
Open Scope string_scope.

Lemma rev_acc_app (s acc : string) : rev_acc s acc = rev s ++ acc.
Proof.
  unfold rev. revert acc; induction s as [|c s IH]; intros acc; cbn;
    [reflexivity|].
  rewrite IH, (IH (String c "")), append_assoc. reflexivity.
Qed.

Lemma rev_cons (c : ascii) (s : string) :
  rev (String c s) = rev s ++ String c "".
Proof. unfold rev at 1. cbn. apply rev_acc_app. Qed.

Lemma rev_snoc (c : ascii) (s : string) :
  rev (s ++ String c "") = String c (rev s).
Proof.
  rewrite <- (rev_involutive s) at 1. rewrite <- rev_cons.
  apply rev_involutive.
Qed.

Lemma drop_while_snoc (p : ascii -> bool) (c : ascii) (u : string) :
  p c = false ->
  drop_while p (u ++ String c "") = drop_while p u ++ String c "".
Proof.
  intros Hc. induction u as [|d u IH]; cbn.
  - now rewrite Hc.
  - destruct (p d); [exact IH | reflexivity].
Qed.

Lemma drop_while_twice (p : ascii -> bool) (s : string) :
  drop_while p (drop_while p s) = drop_while p s.
Proof.
  induction s as [|c s IH]; cbn; [reflexivity|].
  destruct (p c) eqn:E; [exact IH | cbn; now rewrite E].
Qed.

(** Empty, or beginning with a character that is not whitespace. *)
Lemma lstrip_clean (s : string) : lstrip (lstrip s) = lstrip s.
Proof. apply drop_while_twice. Qed.

Lemma rstrip_twice (s : string) : rstrip (rstrip s) = rstrip s.
Proof.
  unfold rstrip. now rewrite rev_involutive, drop_while_twice.
Qed.

Lemma rstrip_keeps_head (c : ascii) (s : string) :
  is_space c = false -> rstrip (String c s) = String c (rstrip s).
Proof.
  intros Hc. unfold rstrip.
  rewrite rev_cons, drop_while_snoc by exact Hc. now rewrite rev_snoc.
Qed.

Lemma lstrip_rstrip_lstrip (s : string) :
  lstrip (rstrip (lstrip s)) = rstrip (lstrip s).
Proof.
  unfold lstrip at 2 3.
  induction s as [|c s IH]; cbn [drop_while]; [reflexivity|].
  destruct (is_space c) eqn:Hc; [exact IH|].
  rewrite rstrip_keeps_head by exact Hc. unfold lstrip. cbn. now rewrite Hc.
Qed.

Lemma strip_twice (s : string) : strip (strip s) = strip s.
Proof.
  unfold strip. now rewrite lstrip_rstrip_lstrip, rstrip_twice.
Qed.

Example strip_run :
  strip (String "009" " a b  ") = "a b".
Proof. reflexivity. Qed.

(** X15: whitespace around the input never changes what the resolver
    does: on an input and on the same input stripped it makes the same
    requests and gives the same outcome. *)
Theorem resolve_ignores_outer_whitespace (api : remote)
  (api_key input_str : string) :
  strip (strip input_str) = strip input_str /\
  run (resolve_to_channel_id api api_key (strip input_str))
  = run (resolve_to_channel_id api api_key input_str).
Proof.
  split; [apply strip_twice|].
  unfold run, resolve_to_channel_id. now rewrite strip_twice.
Qed.

Lemma re_search_inv {A} (f : string -> option A) (s : string) (a : A) :
  re_search f s = Some a ->
  exists p q, s = p ++ q /\ f q = Some a.
Proof.
  induction s as [|c s IH]; cbn.
  - destruct (f "") eqn:E; [|discriminate]. intros [= <-]. now exists "", "".
  - destruct (f (String c s)) eqn:E.
    + intros [= <-]. now exists "", (String c s).
    + intros H. apply IH in H as (p & q & -> & Hq).
      now exists (String c p), q.
Qed.

Lemma re_search_found {A} (f : string -> option A) (p q : string) (a : A) :
  f q = Some a -> exists a', re_search f (p ++ q) = Some a'.
Proof.
  intros Hq. induction p as [|c p IH]; cbn.
  - destruct q; cbn; rewrite Hq; eauto.
  - destruct (f (String c (p ++ q))); eauto.
Qed.

(** What the regex for a channel URL captures is a channel ID that stands
    in the text right after "/channel/". *)
Lemma channel_url_at_inv (q cid : string) :
  channel_url_at q = Some cid ->
  canonical cid /\ exists rest, q = "/channel/" ++ cid ++ rest.
Proof.
  unfold channel_url_at, channel_id_at.
  destruct (strip_prefix "/channel/" q) as [r|] eqn:E1; [|discriminate].
  apply strip_prefix_spec in E1.
  destruct (strip_prefix "UC" r) as [r'|] eqn:E2; [|discriminate].
  apply strip_prefix_spec in E2.
  destruct (take 22 r') as [t|] eqn:E3; [|discriminate].
  destruct (all is_id_char t) eqn:E4; [|discriminate].
  cbn. intros [= <-]. apply take_inv in E3 as [Hr' Hlen].
  split; [now exists t|].
  exists (substring 22 (String.length r' - 22) r').
  rewrite E1, E2. rewrite Hr' at 1. reflexivity.
Qed.

Lemma channel_url_at_canonical (cid rest : string) :
  canonical cid -> channel_url_at ("/channel/" ++ cid ++ rest) = Some cid.
Proof.
  intros (t & -> & Hlen & Hall).
  unfold channel_url_at, channel_id_at.
  rewrite (proj2 (strip_prefix_spec "/channel/" _ (("UC" ++ t) ++ rest))
             eq_refl).
  rewrite (proj2 (strip_prefix_spec "UC" (("UC" ++ t) ++ rest) (t ++ rest)))
    by (cbn; reflexivity).
  rewrite (take_spec t rest Hlen). unfold is_id_char. now rewrite Hall.
Qed.

Lemma http_not_channel_id (s : string) :
  startswith s "http://" || startswith s "https://" = true ->
  is_channel_id s = false /\ String.eqb s "" = false.
Proof.
  intros H. destruct s as [|c s]; [discriminate|]. split; [|reflexivity].
  unfold is_channel_id, channel_id_at.
  destruct (strip_prefix "UC" (String c s)) as [r|] eqn:E; [|reflexivity].
  apply strip_prefix_spec in E. injection E as -> _.
  discriminate H.
Qed.

(** X16: a URL that holds a segment "/channel/<ID>" with a canonical ID
    is resolved without any network call, to a canonical ID that stands in
    the URL after "/channel/". *)
Theorem resolve_channel_segment (api : remote)
  (api_key input_str p cid rest : string)
  (Hurl : startswith (strip input_str) "http://"
          || startswith (strip input_str) "https://" = true)
  (Hseg : strip input_str = p ++ "/channel/" ++ cid ++ rest)
  (Hcid : canonical cid) :
  exists cid' p' rest',
    run (resolve_to_channel_id api api_key input_str)
    = Some (Ok cid', []) /\
    canonical cid' /\
    strip input_str = p' ++ "/channel/" ++ cid' ++ rest'.
Proof.
  destruct (http_not_channel_id _ Hurl) as [Hid Hne].
  destruct (@re_search_found _ channel_url_at p _ _
              (channel_url_at_canonical rest Hcid)) as [cid' Hfound].
  rewrite <- Hseg in Hfound.
  destruct (@re_search_inv _ _ _ _ Hfound) as (p' & q & Hq & Hat).
  apply channel_url_at_inv in Hat as [Hcan [rest' ->]].
  exists cid', p', rest'. split; [|now split].
  unfold run, resolve_to_channel_id.
  now rewrite Hne, Hid, Hurl, Hfound.
Qed.

Lemma resolve_channel_segment_witness :
  exists cid' p' rest',
    run (resolve_to_channel_id Sample.api "k"
           " https://youtube.com/channel/UC_x5XG1OV2P6uZZ5FSM9Ttw/@me ")
    = Some (Ok cid', []) /\
    canonical cid' /\
    strip " https://youtube.com/channel/UC_x5XG1OV2P6uZZ5FSM9Ttw/@me "
    = p' ++ "/channel/" ++ cid' ++ rest'.
Proof.
  apply (@resolve_channel_segment Sample.api "k"
           " https://youtube.com/channel/UC_x5XG1OV2P6uZZ5FSM9Ttw/@me "
           "https://youtube.com" "UC_x5XG1OV2P6uZZ5FSM9Ttw" "/@me").
  - reflexivity.
  - reflexivity.
  - exists "_x5XG1OV2P6uZZ5FSM9Ttw". repeat split; reflexivity.
Defined.

Section Outcome.

Variable api : remote.
Variable api_key : string.

Lemma search_lookup (q : string) :
  lookup_like (channel_id_from_search api api_key q).
Proof.
  intros l. unfold channel_id_from_search, bind, get.
  destruct (search_channel api api_key q) as [|cid items].
  - eexists _, [_]. repeat split; cbn; eauto.
  - eexists _, [_]. repeat split; cbn; eauto.
Qed.

Lemma handle_lookup (h : string) :
  lookup_like (channel_id_from_handle api api_key h).
Proof.
  intros l. unfold channel_id_from_handle, bind, get.
  destruct (channels_forHandle api api_key h) as [|cid items].
  - eexists _, [_]. repeat split; cbn; eauto.
  - eexists _, [_]. repeat split; cbn; eauto.
Qed.

Lemma username_lookup (u : string) :
  lookup_like (channel_id_from_username api api_key u).
Proof.
  intros l. unfold channel_id_from_username, bind, get.
  destruct (channels_forUsername api api_key u) as [|cid items].
  - unfold channel_id_from_search, bind, get.
    destruct (search_channel api api_key u) as [|cid items].
    + exists (Raise (ValueError ("No channel found for query: " ++ u))),
        [ChannelsForUsername api_key u; SearchChannel api_key u].
      split; [unfold raise; now rewrite <- app_assoc|].
      split; [cbn; lia | eauto].
    + exists (Ok cid),
        [ChannelsForUsername api_key u; SearchChannel api_key u].
      split; [unfold ret; now rewrite <- app_assoc|].
      split; [cbn; lia | exact I].
  - eexists _, [_]. repeat split; cbn; eauto.
Qed.

(** The resolver either answers by itself, with a canonical ID or with the
    error of an empty input, or hands over to one lookup. *)
Lemma resolve_cases (input_str : string) :
  (exists cid,
     canonical cid /\
     resolve_to_channel_id api api_key input_str = ret cid) \/
  resolve_to_channel_id api api_key input_str
  = raise (ValueError "Empty channel input.") \/
  lookup_like (resolve_to_channel_id api api_key input_str).
Proof.
  unfold resolve_to_channel_id.
  destruct (String.eqb (strip input_str) ""); [now right; left|].
  destruct (is_channel_id (strip input_str)) eqn:Eid.
  { left. exists (strip input_str). split; [|reflexivity].
    now apply is_channel_id_canonical. }
  destruct (startswith (strip input_str) "http://"
            || startswith (strip input_str) "https://").
  - destruct (re_search channel_url_at (strip input_str)) as [cid|] eqn:E1.
    { left. exists cid. split; [|reflexivity].
      apply re_search_inv in E1 as (p & q & _ & Hq).
      now apply channel_url_at_inv in Hq. }
    right; right.
    destruct (re_search (name_after "/@" is_name_char) (strip input_str));
      [apply handle_lookup|].
    destruct (re_search (name_after "/user/" is_alnum) (strip input_str));
      [apply username_lookup|].
    destruct (re_search (name_after "/c/" is_name_char) (strip input_str));
      apply search_lookup.
  - right; right.
    destruct (startswith (strip input_str) "@");
      [apply handle_lookup | apply username_lookup].
Qed.

End Outcome.

Section Requests.

Variable api : remote.
Variable api_key : string.

Lemma search_requests (q : string) (r : result string) (l : log) :
  channel_id_from_search api api_key q [] = Some (r, l) ->
  l = [SearchChannel api_key q].
Proof.
  unfold channel_id_from_search, bind, get, ret, raise.
  destruct (search_channel api api_key q); now intros [= _ <-].
Qed.

Lemma handle_requests (h : string) (r : result string) (l : log) :
  channel_id_from_handle api api_key h [] = Some (r, l) ->
  l = [ChannelsForHandle api_key h].
Proof.
  unfold channel_id_from_handle, bind, get, ret, raise.
  destruct (channels_forHandle api api_key h); now intros [= _ <-].
Qed.

Lemma username_requests (u : string) (r : result string) (l : log) :
  channel_id_from_username api api_key u [] = Some (r, l) ->
  (l = [ChannelsForUsername api_key u] /\
   channels_forUsername api api_key u <> []) \/
  (l = [ChannelsForUsername api_key u; SearchChannel api_key u] /\
   channels_forUsername api api_key u = []).
Proof.
  unfold channel_id_from_username, channel_id_from_search, bind, get, ret,
    raise.
  destruct (channels_forUsername api api_key u) as [|cid items].
  - destruct (search_channel api api_key u); intros [= _ <-];
      right; now split.
  - intros [= _ <-]. left. now split.
Qed.

End Requests.

(** X17: in a run in which every request is answered, the resolver makes
    at most two requests: none, or one handle lookup, or one search, or one
    username lookup, followed, only when that lookup returned no items, by
    one search for the same name. *)
Theorem resolve_requests (api : remote) (api_key input_str : string)
  (r : result string) (l : log)
  (H : run (resolve_to_channel_id api api_key input_str) = Some (r, l)) :
  lookup_requests api api_key l /\ (List.length l <= 2)%nat.
Proof.
  assert (Hl : lookup_requests api api_key l); [|split; [exact Hl|]].
  - unfold run, resolve_to_channel_id in H. unfold lookup_requests.
    destruct (String.eqb (strip input_str) "");
      [left; unfold raise in H; now injection H as _ <-|].
    destruct (is_channel_id (strip input_str));
      [left; unfold ret in H; now injection H as _ <-|].
    destruct (startswith (strip input_str) "http://"
              || startswith (strip input_str) "https://").
    + destruct (re_search channel_url_at (strip input_str));
        [left; unfold ret in H; now injection H as _ <-|].
      destruct (re_search (name_after "/@" is_name_char) (strip input_str));
        [apply handle_requests in H; right; left; eauto|].
      destruct (re_search (name_after "/user/" is_alnum) (strip input_str));
        [apply username_requests in H; right; right; right;
         destruct H as [H|H]; [left | right]; eauto|].
      destruct (re_search (name_after "/c/" is_name_char) (strip input_str));
        apply search_requests in H; right; right; left; eauto.
    + destruct (startswith (strip input_str) "@").
      * apply handle_requests in H. right; left; eauto.
      * apply username_requests in H. right; right; right.
        destruct H as [H|H]; [left | right]; eauto.
  - destruct Hl as [->|[(h & ->)|[(q & ->)|[(u & -> & _)|(u & -> & _)]]]];
      cbn; lia.
Qed.

Lemma resolve_requests_witness :
  lookup_requests Sample.api "k"
    [ChannelsForUsername "k" "marvel"; SearchChannel "k" "marvel"] /\
  (List.length
     [ChannelsForUsername "k" "marvel"; SearchChannel "k" "marvel"] <= 2)%nat.
Proof.
  apply (@resolve_requests Sample.api "k" " marvel "
           (Raise (ValueError "No channel found for query: marvel"))).
  reflexivity.
Defined.

(** X18: an answer obtained without any network call is always of the
    canonical channel-ID shape: the resolver never returns a text it did
    not check or look up. *)
Theorem resolve_offline_is_canonical (api : remote)
  (api_key input_str cid : string)
  (H : run (resolve_to_channel_id api api_key input_str)
       = Some (Ok cid, [])) :
  canonical cid.
Proof.
  unfold run in H.
  destruct (resolve_cases api api_key input_str)
    as [(cid' & Hcan & E)|[E|Hl]].
  - rewrite E in H. unfold ret in H. now injection H as <-.
  - rewrite E in H. discriminate.
  - destruct (Hl []) as (r & calls & E & [Hlen _] & _).
    rewrite E in H. injection H as _ Hcalls.
    destruct calls; [cbn in Hlen; lia | discriminate].
Qed.

Lemma resolve_offline_is_canonical_witness :
  canonical "UC_x5XG1OV2P6uZZ5FSM9Ttw".
Proof.
  apply (@resolve_offline_is_canonical Sample.api "k"
           "https://youtube.com/channel/UC_x5XG1OV2P6uZZ5FSM9Ttw").
  reflexivity.
Defined.

End ResolverPaths.

(* ------------------------------------------------------------------ *)
(** ** Durations the decoder reads as zero *)

Module DurationEdges.

Import Text TextFacts Duration DurationFacts Units.
Open Scope string_scope.
Open Scope Z_scope.

Lemma opt_group_no_unit (X : ascii) (ds rest : string) :
  all is_digit ds = true -> no_unit rest = true ->
  (X = "H" \/ X = "M" \/ X = "S")%char ->
  opt_group X (ds ++ rest) = (None, ds ++ rest).
Proof.
  intros Hds Hrest HX. destruct rest as [|c r].
  - rewrite append_nil_r. unfold opt_group.
    assert (E : span is_digit ds = (ds, "")).
    { clear HX. induction ds as [|d ds IH]; cbn in *; [reflexivity|].
      apply andb_true_iff in Hds as [Hd Hds]. now rewrite Hd, (IH Hds). }
    rewrite E. now destruct ds.
  - cbn in Hrest. apply negb_true_iff in Hrest.
    repeat (apply orb_false_iff in Hrest as [Hrest ?]).
    apply opt_group_other; [assumption | | assumption].
    intros E. subst c. destruct HX as [ E | [ E | E ] ]; subst X;
      cbn in *; discriminate.
Qed.

(** X19: a number whose unit is missing or unknown is dropped without an
    error: "PT" followed by digits and then by nothing, or by text that
    begins with anything but a digit or one of H, M and S (a fraction such
    as "PT1.5S", a lower-case unit such as "PT15s"), decodes to 0. *)
Theorem iso_to_seconds_unknown_unit (ds rest : string)
  (Hds : all is_digit ds = true) (Hrest : no_unit rest = true) :
  iso_to_seconds ("PT" ++ ds ++ rest) = Ok 0.
Proof.
  unfold iso_to_seconds, re_match.
  rewrite (proj2 (strip_prefix_spec "PT" ("PT" ++ ds ++ rest) (ds ++ rest))
             eq_refl).
  rewrite !opt_group_no_unit by (assumption || tauto).
  reflexivity.
Qed.

Lemma iso_to_seconds_unknown_unit_witness :
  iso_to_seconds "PT1.5S" = Ok 0 /\ iso_to_seconds "PT15s" = Ok 0 /\
  iso_to_seconds "PT90" = Ok 0.
Proof.
  split; [|split].
  - apply (@iso_to_seconds_unknown_unit "1" ".5S"); reflexivity.
  - apply (@iso_to_seconds_unknown_unit "15" "s"); reflexivity.
  - apply (@iso_to_seconds_unknown_unit "90" ""); reflexivity.
Defined.

End DurationEdges.

(* ------------------------------------------------------------------ *)
(** ** The keyword filter *)

Module DashboardFacts.

Import Text TextFacts Dashboard Kpi.
Open Scope string_scope.

Lemma contains_spec (kw t : string) :
  contains kw t = true <-> exists p q, t = p ++ kw ++ q.
Proof.
  split.
  - induction t as [|c t IH]; cbn.
    + destruct (strip_prefix kw "") as [q|] eqn:E; [|discriminate].
      intros _. apply strip_prefix_spec in E. now exists "", q.
    + destruct (strip_prefix kw (String c t)) as [q|] eqn:E.
      * intros _. apply strip_prefix_spec in E. now exists "", q.
      * intros H. destruct (IH H) as (p & q & ->).
        now exists (String c p), q.
  - intros (p & q & ->). induction p as [|c p IH]; cbn.
    + destruct (kw ++ q) eqn:Ek; cbn;
        now rewrite <- Ek, (proj2 (strip_prefix_spec kw (kw ++ q) q) eq_refl).
    + destruct (strip_prefix kw (String c (p ++ kw ++ q)));
        [reflexivity | exact IH].
Qed.

Example lower_run : lower "YouTube OPS" = "youtube ops".
Proof. reflexivity. Qed.

Example videos_filtered_run :
  let a := Video.Make "a" "My First VLOG" "" None 0 0 0 None in
  let b := Video.Make "b" "Cooking show" "" None 0 0 0 None in
  videos_filtered "  Vlog " [a; b] = [a].
Proof. reflexivity. Qed.

Lemma filter_filter_length {A} (p q : A -> bool) (l : list A) :
  (List.length (filter p (filter q l)) <= List.length (filter p l))%nat.
Proof.
  induction l as [|x l IH]; cbn; [lia|].
  destruct (q x), (p x) eqn:E; cbn; rewrite ?E; cbn; lia.
Qed.

(** X20: a blank keyword keeps every video; any other keyword keeps, in
    their order, exactly the videos whose lower-cased title contains the
    stripped, lower-cased keyword as a substring; and the total a KPI row
    reports over the filtered videos never exceeds its total over all of
    them. *)
Theorem videos_filtered_spec (search_kw : string) (videos : list Video.t) :
  (all is_space search_kw = true -> videos_filtered search_kw videos = videos)
  /\
  (keyword search_kw <> "" ->
   forall v,
     In v (videos_filtered search_kw videos) <->
     In v videos /\
     exists p q, lower (Video.title v) = p ++ keyword search_kw ++ q) /\
  (forall start end_ thr,
     (count_total (compute_kpis (videos_filtered search_kw videos)
                     start end_ thr)
      <= count_total (compute_kpis videos start end_ thr))%Z).
Proof.
  split; [|split].
  - intros Hb. unfold videos_filtered, keyword.
    now rewrite (ResolverFacts.strip_blank _ Hb).
  - intros Hkw v. unfold videos_filtered.
    destruct (String.eqb_spec (keyword search_kw) ""); [contradiction|].
    rewrite filter_In, contains_spec. reflexivity.
  - intros start end_ thr. cbn [count_total compute_kpis].
    apply inj_le. unfold videos_filtered, items_in_range.
    destruct (String.eqb (keyword search_kw) ""); [lia|].
    apply filter_filter_length.
Qed.

Lemma videos_filtered_spec_witness :
  let a := Video.Make "a" "My First VLOG" "" None 0 0 0 None in
  let b := Video.Make "b" "Cooking show" "" None 0 0 0 None in
  videos_filtered "   " [a; b] = [a; b] /\
  (In a (videos_filtered " Vlog" [a; b]) <->
   In a [a; b] /\
   exists p q, lower (Video.title a) = p ++ keyword " Vlog" ++ q).
Proof.
  intros a b. split.
  - apply (proj1 (videos_filtered_spec "   " [a; b])). reflexivity.
  - apply (proj1 (proj2 (videos_filtered_spec " Vlog" [a; b]))).
    discriminate.
Defined.

End DashboardFacts.

(* ------------------------------------------------------------------ *)
(** ** The whole pipeline *)

Module PipelineFacts.

Import Net Fetch Served Paging Batches Newest FetchFacts.
Open Scope Z_scope.
Open Scope list_scope.

(** X21: against a remote side that knows the channel, serves its uploads
    container [L] in pages of 50 and answers every batch of the details
    lookup, [load_channel_data] with [max_items >= 0] makes one request for
    the uploads playlist, then the page requests, then one details request
    per batch of 50 of the first [max_items] IDs, and returns one record
    for each of these IDs (all of [L] when it holds fewer), newest
    first. *)
Theorem load_channel_data_runs (api : remote)
  (dtparse : string -> option Video.instant)
  (key channel_id uploads : string) (others : list string)
  (tok : nat -> string) (L : list string) (max_items : Z) (fuel : nat)
  (Hmeta : channels_contentDetails api key channel_id
           = (200, uploads :: others))
  (Hmax : 0 <= max_items)
  (Hpages : serves_pages api key uploads tok L)
  (Hvideos : serves_videos api dtparse key (firstn (Z.to_nat max_items) L))
  (Hfuel : (calls_needed (Z.to_nat max_items) (List.length L) <= fuel)%nat) :
  exists recs,
    run (load_channel_data api dtparse fuel key channel_id max_items)
    = Some (Ok recs,
            ChannelsContentDetails key channel_id
            :: page_calls key uploads tok
                 (calls_needed (Z.to_nat max_items) (List.length L))
            ++ map (batch_call key)
                 (chunk (firstn (Z.to_nat max_items) L) 50)) /\
    List.length recs = Nat.min (Z.to_nat max_items) (List.length L) /\
    StronglySorted not_older recs.
Proof.
  unfold run, load_channel_data.
  rewrite bind_ok with (1 := get_uploads_playlist_id_ok _ _ _ _ Hmeta).
  rewrite bind_ok
    with (1 := PagingFacts.list_upload_video_ids_run Hmax Hpages _ Hfuel).
  destruct (DetailsFacts.details_answered [] Hvideos []
              (([] ++ [ChannelsContentDetails key channel_id])
               ++ page_calls key uploads tok
                    (calls_needed (Z.to_nat max_items) (List.length L))))
    as (recs & E & Hlen).
  rewrite app_nil_r in E.
  exists (sort_newest_first recs). repeat split.
  - rewrite bind_ok with (a := recs)
      (l' := (([] ++ [ChannelsContentDetails key channel_id])
              ++ page_calls key uploads tok
                   (calls_needed (Z.to_nat max_items) (List.length L)))
             ++ map (batch_call key)
                  (chunk (firstn (Z.to_nat max_items) L) 50)).
    + unfold ret. cbn [app]. reflexivity.
    + rewrite fetch_video_details_chunks. exact E.
  - rewrite sort_newest_first_length, Hlen.
    rewrite ChunkFacts.chunk_joined by lia. apply length_firstn.
  - apply SortFacts.sort_newest_first_sorted.
Qed.

Lemma load_channel_data_runs_witness :
  exists recs,
    run (load_channel_data Sample.api Sample.dtparse 3 "k" "UCsample" 120)
    = Some (Ok recs,
            ChannelsContentDetails "k" "UCsample"
            :: page_calls "k" "UUsample" Sample.token
                 (calls_needed (Z.to_nat 120) (List.length Sample.uploads))
            ++ map (batch_call "k")
                 (chunk (firstn (Z.to_nat 120) Sample.uploads) 50)) /\
    List.length recs
    = Nat.min (Z.to_nat 120) (List.length Sample.uploads) /\
    StronglySorted not_older recs.
Proof.
  apply (@load_channel_data_runs Sample.api Sample.dtparse "k" "UCsample"
           "UUsample" [] Sample.token Sample.uploads 120 3).
  - reflexivity.
  - lia.
  - apply sample_serves_pages.
  - apply sample_serves_videos.
  - vm_compute. lia.
Defined.

End PipelineFacts.
